(** * AVF club scraper: fetcher, extractor and aggregator

    A shallow embedding of [scraper/club_scraper.py] and
    [scraper/data_processor.py].  Python [str] values are sequences of
    Unicode code points; the outside world (the curl subprocess, the parsed
    HTML tree, the files on disk) is passed in as data. *)

From Stdlib Require Import ZArith List Bool Lia String Ascii.
From stdpp Require Import base option list sorting strings gmap.

Local Open Scope Z_scope.

(** ** Python strings *)

(** A [str] is a sequence of code points. *)
Definition pystr := list N.

(** ASCII literals: each character of [s] as its code point. *)
Fixpoint lit (s : string) : pystr :=
  match s with
  | EmptyString => []
  | String a s' => N_of_ascii a :: lit s'
  end.

(** The sentinel used throughout both modules. *)
Definition NA : pystr := lit "N/A".

Definition in_range (lo hi c : N) : bool := ((lo <=? c) && (c <=? hi))%N.

(** [str.isspace] on one code point (CPython's [_PyUnicode_IsWhitespace]);
    [str.strip()] and the regular expression class [\s] both use it. *)
Definition isspace (c : N) : bool :=
  in_range 9 13 c || in_range 28 32 c || (c =? 133)%N || (c =? 160)%N
  || (c =? 5760)%N || in_range 8192 8202 c || in_range 8232 8233 c
  || (c =? 8239)%N || (c =? 8287)%N || (c =? 12288)%N.

Fixpoint lstrip (s : pystr) : pystr :=
  match s with
  | c :: s' => if isspace c then lstrip s' else s
  | [] => []
  end.

Definition rstrip (s : pystr) : pystr := rev (lstrip (rev s)).

(** [s.strip()] *)
Definition strip (s : pystr) : pystr := rstrip (lstrip s).

(** Truthiness of a [str]: non-empty. *)
Definition truthy (s : pystr) : bool :=
  match s with [] => false | _ :: _ => true end.

(** [range(n)] for a Python int [n]: empty when [n <= 0]. *)
Definition range (n : Z) : list Z := map Z.of_nat (seq 0 (Z.to_nat n)).

(** ** Fetcher: [ClubScraper.fetch_html_with_curl] *)

(** What one call of [subprocess.run(command, check=True, timeout=30, ...)]
    can do: return a completed process with its standard output, or raise. *)
Inductive run_outcome :=
| Completed (stdout : pystr)
| CalledProcessError
| TimeoutExpired
| FileNotFoundError
| OtherException.

(** Observable effects of a fetch, in the order they happen. *)
Inductive event :=
| Run
| Sleep (seconds : Z).

(** How the call ends: [return] of a value, or an exception leaving it. *)
Inductive fetch_result :=
| Return (html : option pystr)
| Raise.

(** The part of the loop body after the [try] statement, lines 126-131,
    followed by the remaining iterations [rest]. *)
Definition backoff (retries attempt : Z) (rest : list event * fetch_result)
  : list event * fetch_result :=
  if attempt <? retries
  then (Sleep ((attempt + 1) * 2) :: fst rest, snd rest)
  else rest.

(** The [for attempt in range(retries + 1)] loop over the iterations still
    to run; [env k] is the outcome of the [k]-th call of [subprocess.run]
    and [calls] counts the calls made so far. *)
Fixpoint fetch_loop (env : nat -> run_outcome) (retries : Z)
    (calls : nat) (attempts : list Z) : list event * fetch_result :=
  match attempts with
  | [] => ([], Return None)
  | attempt :: later =>
      let rest := backoff retries attempt (fetch_loop env retries (S calls) later) in
      match env calls with
      | Completed stdout =>
          if truthy (strip stdout)
          then ([Run], Return (Some stdout))
          else (Run :: fst rest, snd rest)
      | CalledProcessError => (Run :: fst rest, snd rest)
      | TimeoutExpired => (Run :: fst rest, snd rest)
      | FileNotFoundError => ([Run], Return None)
      | OtherException => ([Run], Raise)
      end
  end.

Definition fetch_html_with_curl (env : nat -> run_outcome) (retries : Z)
  : list event * fetch_result :=
  fetch_loop env retries 0 (range (retries + 1)).

(** [MAX_RETRY_ATTEMPTS] of [config.py]. *)
Definition MAX_RETRY_ATTEMPTS : Z := 3.

(** An attempt that fails and is retried: non-zero exit status, timeout, or
    a body that is empty once stripped. *)
Definition retryable (o : run_outcome) : bool :=
  match o with
  | Completed stdout => negb (truthy (strip stdout))
  | CalledProcessError | TimeoutExpired => true
  | FileNotFoundError | OtherException => false
  end.

(** Readings of a trace. *)
Fixpoint attempts_made (tr : list event) : nat :=
  match tr with
  | [] => O
  | Run :: tr' => S (attempts_made tr')
  | Sleep _ :: tr' => attempts_made tr'
  end.

Fixpoint sleeps (tr : list event) : list Z :=
  match tr with
  | [] => []
  | Run :: tr' => sleeps tr'
  | Sleep s :: tr' => s :: sleeps tr'
  end.

(** The schedule the retry policy describes: an attempt, then for each
    further attempt [i = 1, 2, ...] a sleep of [2 * i] seconds and the
    attempt itself. *)
Fixpoint retry_schedule_from (i : Z) (further : nat) : list event :=
  match further with
  | O => []
  | S m => Sleep (2 * i) :: Run :: retry_schedule_from (i + 1) m
  end.

Definition retry_schedule (n : Z) : list event :=
  Run :: retry_schedule_from 1 (Z.to_nat n).


(** ** Tables: the [pandas.DataFrame] values the processor handles *)

Fixpoint str_eqb (s t : pystr) : bool :=
  match s, t with
  | [], [] => true
  | a :: s', b :: t' => (a =? b)%N && str_eqb s' t'
  | _, _ => false
  end.

(** [x in xs] for a list of strings. *)
Definition str_in (x : pystr) (xs : list pystr) : bool := existsb (str_eqb x) xs.

(** A cell is missing ([NaN] or [None]), a [str], or another scalar (a
    number read by [read_csv]), kept with the text [str()] gives for it. *)
Inductive cell :=
| NaN
| Str (s : pystr)
| Scalar (repr : pystr).

(** Column labels in order, and the data row by row, one cell per column.
    The row index plays no role in the processor ([index=False],
    [ignore_index=True]) and is left out. *)
Record DataFrame := mkFrame {
  columns : list pystr;
  rows : list (list cell)
}.

(** Every row has one cell per column. *)
Definition well_formed (df : DataFrame) : Prop :=
  Forall (fun row => length row = length (columns df)) (rows df).

Definition isna (c : cell) : bool :=
  match c with NaN => true | _ => false end.

(** [len(df)] *)
Definition len (df : DataFrame) : nat := length (rows df).

(** [df.empty]: some axis has length zero. *)
Definition empty (df : DataFrame) : bool :=
  match columns df, rows df with
  | _ :: _, _ :: _ => false
  | _, _ => true
  end.

(** An element-wise operation on the whole frame. *)
Definition map_cells (f : cell -> cell) (df : DataFrame) : DataFrame :=
  mkFrame (columns df) (map (map f) (rows df)).

(** [df.fillna(value)] *)
Definition fillna (value : pystr) (df : DataFrame) : DataFrame :=
  map_cells (fun c => match c with NaN => Str value | _ => c end) df.

(** [df.replace(to_replace, value)]: cells equal to the string
    [to_replace] become [value]. *)
Definition replace (to_replace value : pystr) (df : DataFrame) : DataFrame :=
  map_cells (fun c =>
    match c with
    | Str s => if str_eqb s to_replace then Str value else c
    | _ => c
    end) df.

(** [series.astype(str)], on one element. *)
Definition astype_str (c : cell) : cell :=
  match c with
  | NaN => Str (lit "nan")
  | Str s => Str s
  | Scalar repr => Str repr
  end.

(** A method of the [.str] accessor, on one element: elements that are not
    strings give [NaN]. *)
Definition str_method (f : pystr -> pystr) (c : cell) : cell :=
  match c with
  | Str s => Str (f s)
  | _ => NaN
  end.

(** [re.sub(r"\s+", " ", s)]: each maximal run of whitespace becomes one
    space; [in_run] tells that the previous character was whitespace. *)
Fixpoint collapse_from (in_run : bool) (s : pystr) : pystr :=
  match s with
  | [] => []
  | c :: s' =>
      if isspace c
      then (if in_run then collapse_from true s' else 32%N :: collapse_from true s')
      else c :: collapse_from false s'
  end.

Definition collapse_spaces (s : pystr) : pystr := collapse_from false s.

(** One row of [df[col] = f(df[col])] for an element-wise [f]. *)
Fixpoint assign_row (col : pystr) (f : cell -> cell)
    (cols : list pystr) (row : list cell) : list cell :=
  match cols, row with
  | name :: cols', c :: row' =>
      (if str_eqb name col then f c else c) :: assign_row col f cols' row'
  | _, _ => row
  end.

(** [df[col] = f(df[col])] *)
Definition assign (col : pystr) (f : cell -> cell) (df : DataFrame) : DataFrame :=
  mkFrame (columns df) (map (assign_row col f (columns df)) (rows df)).

(** [df.dropna(how="all")]: rows whose cells are all missing go. *)
Definition dropna_all (df : DataFrame) : DataFrame :=
  mkFrame (columns df) (List.filter (fun row => negb (forallb isna row)) (rows df)).

(** [CSV_FIELDNAMES] of [config.py]. *)
Definition CSV_FIELDNAMES : list pystr :=
  [lit "club"; lit "role"; lit "name"; lit "mobile_phone"; lit "private_phone";
   lit "email"].

Definition string_columns : list pystr :=
  [lit "club"; lit "role"; lit "name"; lit "email"].

Definition phone_columns : list pystr :=
  [lit "mobile_phone"; lit "private_phone"].

(** The two column loops of [clean_data], guarded by
    [if col in cleaned_df.columns]. *)
Definition strip_column (df : DataFrame) (col : pystr) : DataFrame :=
  if str_in col (columns df)
  then assign col (fun c => str_method strip (astype_str c)) df
  else df.

Definition phone_column (df : DataFrame) (col : pystr) : DataFrame :=
  if str_in col (columns df)
  then assign col (str_method collapse_spaces)
         (assign col (fun c => str_method strip (astype_str c)) df)
  else df.

(** [DataProcessor.clean_data], as a function of the frame's value. *)
Definition clean_data (df : DataFrame) : DataFrame :=
  let cleaned_df := df in
  let cleaned_df := fillna NA cleaned_df in
  let cleaned_df := replace [] NA cleaned_df in
  let cleaned_df := fold_left strip_column string_columns cleaned_df in
  let cleaned_df := fold_left phone_column phone_columns cleaned_df in
  dropna_all cleaned_df.

(** *** Frames as objects

    [clean_data] receives a reference to a frame object that its caller
    still holds.  Objects live in a store indexed by references; a method
    that returns a new frame allocates, an item assignment updates the
    object in place. *)

Abbreviation ref := nat.
Abbreviation store := (list DataFrame).

(** A computation on the store; [None] stands for an exception (a dangling
    reference cannot occur in Python). *)
Definition St (A : Type) : Type := store -> option (A * store).

#[global] Instance St_ret : MRet St := fun A (a : A) h => Some (a, h).

#[global] Instance St_bind : MBind St := fun A B (k : A -> St B) (m : St A) h =>
  match m h with
  | Some (a, h') => k a h'
  | None => None
  end.

(** A method that leaves its receiver alone and returns a new object:
    [copy], [fillna], [replace], [dropna]. *)
Definition new_from (f : DataFrame -> DataFrame) (r : ref) : St ref :=
  fun h => match h !! r with
           | Some df => Some (length h, h ++ [f df])
           | None => None
           end.

(** A statement that changes the object behind [r] in place:
    [df[col] = ...]. *)
Definition update (f : DataFrame -> DataFrame) (r : ref) : St unit :=
  fun h => match h !! r with
           | Some df => Some (tt, <[r := f df]> h)
           | None => None
           end.

(** [for col in cols: body(col)] *)
Fixpoint for_each (cols : list pystr) (body : pystr -> St unit) : St unit :=
  match cols with
  | [] => mret tt
  | col :: cols' => body col ;; for_each cols' body
  end.

(** [DataProcessor.clean_data] statement by statement; the local variable
    [cleaned_df] is rebound at each assignment. *)
Definition clean_data_obj (df : ref) : St ref :=
  cleaned_df ← new_from (fun d => d) df;
  cleaned_df ← new_from (fillna NA) cleaned_df;
  cleaned_df ← new_from (replace [] NA) cleaned_df;
  for_each string_columns (fun col =>
    update (fun d => strip_column d col) cleaned_df);;
  for_each phone_columns (fun col =>
    update (fun d => phone_column d col) cleaned_df);;
  cleaned_df ← new_from dropna_all cleaned_df;
  mret cleaned_df.

(** Two small tables over the schema: one whose only row is missing in
    every column, and one record whose role cell is a single space. *)
Definition all_missing_table : DataFrame :=
  mkFrame CSV_FIELDNAMES [[NaN; NaN; NaN; NaN; NaN; NaN]].

Definition blank_role_table : DataFrame :=
  mkFrame CSV_FIELDNAMES
    [[Str (lit "FC Sion"); Str (lit " "); Str (lit "Jean Dupont");
      Str (lit "+41 79 123 45 67"); NaN; Str (lit "jd@example.com")]].

(** ** Aggregator: validation, combination and summary *)

(** A [*.csv] file of the output directory: its name, its stem, and what
    [pd.read_csv] makes of it ([None] when reading raises). *)
Record csv_file := mkFile {
  file_name : pystr;
  file_stem : pystr;
  read_csv : option DataFrame
}.

(** [set(CSV_FIELDNAMES) - set(df.columns)] is non-empty. *)
Definition missing_columns (df : DataFrame) : bool :=
  negb (forallb (fun c => str_in c (columns df)) CSV_FIELDNAMES).

(** [DataProcessor.validate_csv_structure] *)
Definition validate_csv_structure (f : csv_file) : bool :=
  match read_csv f with
  | None => false
  | Some df =>
      if missing_columns df then false
      else if empty df then false
      else true
  end.

(** Comparison of two [str] values: code point by code point. *)
Fixpoint str_compare (s t : pystr) : comparison :=
  match s, t with
  | [], [] => Eq
  | [], _ :: _ => Lt
  | _ :: _, [] => Gt
  | a :: s', b :: t' =>
      match (a ?= b)%N with
      | Eq => str_compare s' t'
      | c => c
      end
  end.

(** Comparison of two cells of a sort key: missing values go last
    ([na_position="last"]), text compares as [str]. *)
Definition cell_compare (a b : cell) : comparison :=
  match a, b with
  | NaN, NaN => Eq
  | NaN, _ => Gt
  | _, NaN => Lt
  | (Str s | Scalar s), (Str t | Scalar t) => str_compare s t
  end.

(** The cell of [row] under the column labelled [col]. *)
Fixpoint cell_of (cols : list pystr) (row : list cell) (col : pystr) : cell :=
  match cols, row with
  | name :: cols', c :: row' =>
      if str_eqb name col then c else cell_of cols' row' col
  | _, _ => NaN
  end.

(** Comparison of two rows on the columns [by], the first column that
    differs deciding. *)
Fixpoint row_compare (cols by_ : list pystr) (r1 r2 : list cell) : comparison :=
  match by_ with
  | [] => Eq
  | col :: by' =>
      match cell_compare (cell_of cols r1 col) (cell_of cols r2 col) with
      | Eq => row_compare cols by' r1 r2
      | c => c
      end
  end.

Definition row_le (cols by_ : list pystr) (r1 r2 : list cell) : Prop :=
  row_compare cols by_ r1 r2 <> Gt.

(** One step of the sort: [row] is put before the first of the rows already
    in order that is not less than it, so that it stays ahead of the rows
    with the same key. *)
Fixpoint insert_row (cols by_ : list pystr) (row : list cell)
    (ordered : list (list cell)) : list (list cell) :=
  match ordered with
  | [] => [row]
  | r :: later =>
      match row_compare cols by_ row r with
      | Gt => r :: insert_row cols by_ row later
      | _ => row :: ordered
      end
  end.

(** [df.sort_values(by)] for several columns, ascending: pandas sorts on the
    keys with a stable sort, so rows with equal keys keep the order they
    had. *)
Definition sort_values (by_ : list pystr) (df : DataFrame) : DataFrame :=
  mkFrame (columns df) (foldr (insert_row (columns df) by_) [] (rows df)).

(** The columns of [pd.concat(frames)]: the union of the frames' columns in
    order of first appearance. *)
Definition add_columns (acc cols : list pystr) : list pystr :=
  fold_left (fun acc c => if str_in c acc then acc else acc ++ [c]) cols acc.

Definition union_columns (frames : list DataFrame) : list pystr :=
  fold_left (fun acc df => add_columns acc (columns df)) frames [].

(** The rows of [df] laid out on the columns [cols]; a column [df] lacks is
    filled with [NaN]. *)
Definition reindex (cols : list pystr) (df : DataFrame) : list (list cell) :=
  map (fun row => map (cell_of (columns df) row) cols) (rows df).

(** [pd.concat(frames, ignore_index=True)] *)
Definition concat (frames : list DataFrame) : DataFrame :=
  mkFrame (union_columns frames)
          (flat_map (reindex (union_columns frames)) frames).

Definition sort_key : list pystr := [lit "club"; lit "role"; lit "name"].

(** The loop of [_combine_to_single_sheet] filling [all_data]: a file that
    fails validation is skipped, as is one whose processing raises. *)
Fixpoint collect_data (csv_files : list csv_file) (all_data : list DataFrame)
  : list DataFrame :=
  match csv_files with
  | [] => all_data
  | csv_file :: later =>
      if negb (validate_csv_structure csv_file)
      then collect_data later all_data
      else match read_csv csv_file with
           | Some df => collect_data later (all_data ++ [clean_data df])
           | None => collect_data later all_data
           end
  end.

(** [DataProcessor._combine_to_single_sheet]: the table written to the
    sheet "All Clubs" when the method returns [True], [None] when it returns
    [False]. *)
Definition _combine_to_single_sheet (csv_files : list csv_file)
  : option DataFrame :=
  match collect_data csv_files [] with
  | [] => None
  | all_data => Some (sort_values sort_key (concat all_data))
  end.

(** [DataProcessor._sanitize_sheet_name] *)
Definition invalid_chars : list N := [91; 93; 42; 63; 58; 47; 92]%N.

Definition _sanitize_sheet_name (name : pystr) : pystr :=
  let name := List.filter (fun c => negb (existsb (N.eqb c) invalid_chars)) name in
  let name := if (31 <? length name)%nat then take 31 name else name in
  if truthy name then name else lit "Sheet".

(** [DataProcessor._combine_to_separate_sheets]: the sheets written, in
    order, each with its name; the method itself returns [True]. *)
Fixpoint _combine_to_separate_sheets (csv_files : list csv_file)
  : list (pystr * DataFrame) :=
  match csv_files with
  | [] => []
  | csv_file :: later =>
      if negb (validate_csv_structure csv_file)
      then _combine_to_separate_sheets later
      else match read_csv csv_file with
           | Some df =>
               (_sanitize_sheet_name (file_stem csv_file), clean_data df)
               :: _combine_to_separate_sheets later
           | None => _combine_to_separate_sheets later
           end
  end.

(** [DataProcessor.convert_csv_to_xlsx]: the table written to the sheet
    "Trainers", [None] when the method returns [False]. *)
Definition convert_csv_to_xlsx (csv_file : csv_file) : option DataFrame :=
  if negb (validate_csv_structure csv_file) then None
  else match read_csv csv_file with
       | Some df => Some (clean_data df)
       | None => None
       end.

(** The report of [DataProcessor.get_data_summary]. *)
Record club_entry := mkEntry {
  entry_name : cell;
  entry_trainers : nat;
  entry_file : pystr
}.

Record summary := mkSummary {
  total_files : nat;
  total_trainers : nat;
  clubs : list club_entry;
  files_with_errors : list pystr
}.

(** [df["club"].iloc[0]] *)
Definition first_club (df : DataFrame) : cell :=
  match rows df with
  | row :: _ => cell_of (columns df) row (lit "club")
  | [] => NaN
  end.

(** One iteration of the loop of [get_data_summary]. *)
Definition summary_step (s : summary) (csv_file : csv_file) : summary :=
  if validate_csv_structure csv_file
  then match read_csv csv_file with
       | Some df =>
           let club_name :=
             if negb (empty df) then first_club df else Str (file_stem csv_file) in
           let trainer_count := len df in
           mkSummary (total_files s)
                     (total_trainers s + trainer_count)
                     (clubs s ++ [mkEntry club_name trainer_count (file_name csv_file)])
                     (files_with_errors s)
       | None =>
           mkSummary (total_files s) (total_trainers s) (clubs s)
                     (files_with_errors s ++ [file_name csv_file])
       end
  else mkSummary (total_files s) (total_trainers s) (clubs s)
                 (files_with_errors s ++ [file_name csv_file]).

Definition get_data_summary (csv_files : list csv_file) : summary :=
  fold_left summary_step csv_files (mkSummary (length csv_files) 0 [] []).

(** The two ways a file fails validation that the schema rules name: a
    required column is missing, or the file has a header and no data row. *)
Definition lacks_column (f : csv_file) : Prop :=
  exists df col, read_csv f = Some df
    /\ In col CSV_FIELDNAMES /\ str_in col (columns df) = false.

Definition header_only (f : csv_file) : Prop :=
  exists df, read_csv f = Some df /\ rows df = [].

(** The laws of a three-way comparison that make "not greater" a total
    preorder. *)
Definition comparison_laws {A} (cmp : A -> A -> comparison) : Prop :=
  (forall a b, cmp a b = CompOpp (cmp b a))
  /\ (forall a b c, cmp a b = Lt -> cmp b c = Lt -> cmp a c = Lt)
  /\ (forall a b c, cmp a b = Eq -> cmp b c = cmp a c).

(** The tables of the files that pass validation, in directory order. *)
Definition valid_frames (csv_files : list csv_file) : list DataFrame :=
  flat_map (fun f =>
    match read_csv f with
    | Some df => if validate_csv_structure f then [df] else []
    | None => []
    end) csv_files.

(** A cell that holds text. *)
Definition is_str (c : cell) : bool :=
  match c with Str _ => true | _ => false end.

(** The invariants of the pipeline: rows keep their width, no cell is
    missing, and the cell under [col] holds text. *)
Definition full (df : DataFrame) : Prop :=
  Forall (Forall (fun c => isna c = false)) (rows df).

Definition text_under (col : pystr) (df : DataFrame) : Prop :=
  Forall (fun row => is_str (cell_of (columns df) row col) = true) (rows df).

(** Every table read from the files is well formed. *)
Definition tables_well_formed (csv_files : list csv_file) : Prop :=
  Forall (fun f => forall df, read_csv f = Some df -> well_formed df) csv_files.

(** ** The combined sheet, as the schema rules describe it *)

(** The cell of [row] under the column labelled [col]: the position of the
    label among [cols], and the cell at that position. *)
Definition under (cols : list pystr) (row : list cell) (col : pystr)
  : option cell :=
  list_find (fun name => name = col) cols ≫= fun found => row !! found.1.

(** The rows of [frames], one table after the other, each row laid out on
    the columns [cols]; where a table has no such column the cell is
    missing. *)
Definition appended_rows (cols : list pystr) (frames : list DataFrame)
  : list (list cell) :=
  flat_map (fun d =>
    map (fun row => map (fun col => default NaN (under (columns d) row col)) cols)
        (rows d)) frames.

(** [s] comes before [t] in the order of [str]: after a common beginning,
    [s] ends and [t] goes on, or [s] has the smaller code point. *)
Definition str_before (s t : pystr) : Prop :=
  exists common s' t',
    s = common ++ s' /\ t = common ++ t'
    /\ match s', t' with
       | [], _ :: _ => True
       | a :: _, b :: _ => (a < b)%N
       | _, _ => False
       end.

(** The key of a row: the texts under [club], [role] and [name]. *)
Definition key_of (cols : list pystr) (row : list cell)
  : option (pystr * pystr * pystr) :=
  match under cols row (lit "club"), under cols row (lit "role"),
        under cols row (lit "name") with
  | Some (Str club), Some (Str role), Some (Str name) => Some (club, role, name)
  | _, _, _ => None
  end.

(** Ascending order of keys: by club, then by role, then by name. *)
Definition key_le (k1 k2 : pystr * pystr * pystr) : Prop :=
  let '(club1, role1, name1) := k1 in
  let '(club2, role2, name2) := k2 in
  str_before club1 club2
  \/ (club1 = club2
      /\ (str_before role1 role2
          \/ (role1 = role2 /\ (str_before name1 name2 \/ name1 = name2)))).

Definition in_key_order (cols : list pystr) (r1 r2 : list cell) : Prop :=
  exists k1 k2, key_of cols r1 = Some k1 /\ key_of cols r2 = Some k2 /\ key_le k1 k2.

(** ** Sample files

    Two row-store files as [read_csv] returns them, with three and five
    records, a file without the [email] column, and a file that has the
    header and no data row. *)

Definition rec (club role name mobile private_ email : string) : list cell :=
  [Str (lit club); Str (lit role); Str (lit name); Str (lit mobile);
   Str (lit private_); Str (lit email)].

Definition sion_csv : csv_file :=
  mkFile (lit "FC Sion.csv") (lit "FC Sion")
    (Some (mkFrame CSV_FIELDNAMES
       [rec "FC Sion" "Entraineur" "Marc Rey" "+41 79 123 45 67" "+41 27 111 22 33" "mrey@example.com";
        [Str (lit "FC Sion"); Str (lit "Assistant"); Str (lit "Luc Favre");
         Str (lit "+41 78 000 11 22"); NaN; NaN];
        rec "FC Sion" "Assistant" "Anne Bovier" "+41 76 555 66 77" "+41 27 222 33 44" "abovier@example.com"])).

Definition conthey_csv : csv_file :=
  mkFile (lit "FC Conthey.csv") (lit "FC Conthey")
    (Some (mkFrame CSV_FIELDNAMES
       [rec "FC Conthey" "Entraineur" "Paul Roh" "+41 79 222 33 44" "+41 27 345 67 89" "proh@example.com";
        rec "FC Conthey" "Coach" "Zoe Udry" "+41 79 333 44 55" "+41 27 346 11 11" "zudry@example.com";
        rec "FC Conthey" "Coach" "Eric Dessimoz" "+41 79 444 55 66" "+41 27 346 22 22" "edessimoz@example.com";
        [Str (lit "FC Conthey"); Str (lit "Gardiens"); Str (lit "Yann Germanier");
         NaN; NaN; Str (lit "yg@example.com")];
        rec "FC Conthey" "Assistant" "Tom Evequoz" "+41 79 666 77 88" "+41 27 346 33 33" "tevequoz@example.com"])).

Definition no_email_csv : csv_file :=
  mkFile (lit "FC Bramois.csv") (lit "FC Bramois")
    (Some (mkFrame
       [lit "club"; lit "role"; lit "name"; lit "mobile_phone"; lit "private_phone"]
       [[Str (lit "FC Bramois"); Str (lit "Entraineur"); Str (lit "Guy Morard");
         Str (lit "+41 79 777 88 99"); NaN]])).

Definition header_only_csv : csv_file :=
  mkFile (lit "FC Erde.csv") (lit "FC Erde") (Some (mkFrame CSV_FIELDNAMES [])).

Definition sample_files : list csv_file :=
  [sion_csv; no_email_csv; conthey_csv; header_only_csv].

(** ** Extractor: the parsed document *)

(** The tree [BeautifulSoup(html, "html.parser")] builds: text nodes, and
    tags with their name, their classes (the [class] attribute, split on
    whitespace), their other attributes and their children.  The document
    itself is the tag whose children are the top-level nodes. *)
#[warnings="-register-all"] Inductive node :=
| Text (s : pystr)
| Tag (name : pystr) (classes : list pystr) (attrs : list (pystr * pystr))
      (children : list node).

(** All nodes below [n], in document order. *)
Fixpoint descendants (n : node) : list node :=
  match n with
  | Text _ => []
  | Tag _ _ _ children => flat_map (fun c => c :: descendants c) children
  end.

(** A tag [name] carrying every class of [required]: the simple selector
    [name.c1.c2]. *)
Definition is_tag (name : pystr) (required : list pystr) (n : node) : bool :=
  match n with
  | Text _ => false
  | Tag name' classes _ _ =>
      str_eqb name' name && forallb (fun c => str_in c classes) required
  end.

(** [tag.get(key)] *)
Fixpoint get_attr (key : pystr) (attrs : list (pystr * pystr)) : option pystr :=
  match attrs with
  | [] => None
  | (k, v) :: attrs' => if str_eqb k key then Some v else get_attr key attrs'
  end.

(** [p] is a prefix of [s]: what is left of [s] after it. *)
Fixpoint match_literal (p s : pystr) : option pystr :=
  match p, s with
  | [], _ => Some s
  | a :: p', b :: s' => if (a =? b)%N then match_literal p' s' else None
  | _ :: _, [] => None
  end.

(** [sub in s] *)
Fixpoint contains (sub s : pystr) : bool :=
  match match_literal sub s with
  | Some _ => true
  | None => match s with
            | [] => false
            | _ :: s' => contains sub s'
            end
  end.

(** [tag.select(selector)] for a simple selector: the matching nodes below
    [tag], in document order; [select_one] is the first of them. *)
Definition select (matches : node -> bool) (tag : node) : list node :=
  List.filter matches (descendants tag).

Definition select_one (matches : node -> bool) (tag : node) : option node :=
  head (select matches tag).

(** The strings of [tag.get_text(separator, strip=True)]: each text node
    below the tag stripped, the empty ones left out. *)
Fixpoint stripped_strings (nodes : list node) : list pystr :=
  match nodes with
  | [] => []
  | Text s :: nodes' =>
      if truthy (strip s) then strip s :: stripped_strings nodes'
      else stripped_strings nodes'
  | Tag _ _ _ _ :: nodes' => stripped_strings nodes'
  end.

(** [separator.join(strings)] *)
Fixpoint join (separator : pystr) (strings : list pystr) : pystr :=
  match strings with
  | [] => []
  | [s] => s
  | s :: strings' => s ++ separator ++ join separator strings'
  end.

Definition get_text (separator : pystr) (tag : node) : pystr :=
  join separator (stripped_strings (descendants tag)).

(** [soup.select("div.liste div.row.heading")]: the heading rows that have
    a [div.liste] above them, in document order, each with the siblings that
    follow it.  [inside] tells that a [div.liste] encloses [n]; [following]
    are the later siblings of [n]. *)
Fixpoint heading_rows (inside : bool) (n : node) (following : list node)
  : list (node * list node) :=
  match n with
  | Text _ => []
  | Tag _ _ _ children =>
      (if inside && is_tag (lit "div") [lit "row"; lit "heading"] n
       then [(n, following)] else [])
      ++ (fix below (cs : list node) : list (node * list node) :=
            match cs with
            | [] => []
            | c :: cs' =>
                heading_rows (inside || is_tag (lit "div") [lit "liste"] n) c cs'
                ++ below cs'
            end) children
  end.

(** [heading_row.find_next_sibling("div", class_="row")] *)
Definition find_next_sibling (following : list node) : option node :=
  head (List.filter (is_tag (lit "div") [lit "row"]) following).

(** ** Extractor: the regular expressions *)

(** The longest prefix of [s] whose characters are all in the class [p]:
    what a greedy [[...]*] takes. *)
Fixpoint run_of (p : N -> bool) (s : pystr) : pystr :=
  match s with
  | c :: s' => if p c then c :: run_of p s' else []
  | [] => []
  end.

(** [re.search]: the match at the leftmost position of [s] where the
    pattern matches, [match_at] being the match of the pattern at the start
    of a string. *)
Fixpoint re_search {G} (match_at : pystr -> option G) (s : pystr) : option G :=
  match match_at s with
  | Some g => Some g
  | None => match s with
            | [] => None
            | _ :: s' => re_search match_at s'
            end
  end.

Definition not_quote (c : N) : bool := negb (c =? 39)%N.

(** The pattern of [_extract_email] at the start of [s]: the literal
    [openMess('], a group of characters other than the quote, the literal
    ['], a comma, any whitespace, a quote, a second such group, and the
    literal [')].  The result is the two groups. *)
Definition match_openMess_at (s : pystr) : option (pystr * pystr) :=
  match match_literal (lit "openMess('") s with
  | None => None
  | Some rest =>
      let domain := run_of not_quote rest in
      match match_literal (lit "',") (drop (length domain) rest) with
      | None => None
      | Some rest =>
          match match_literal (lit "'") (lstrip rest) with
          | None => None
          | Some rest =>
              let user := run_of not_quote rest in
              match match_literal (lit "')") (drop (length user) rest) with
              | None => None
              | Some _ => Some (domain, user)
              end
          end
      end
  end.

(** The two labels of the phone patterns; [233] is the letter e with an
    acute accent. *)
Definition label_private : pystr :=
  lit "T" ++ [233%N] ++ lit "l priv" ++ [233%N].

Definition label_mobile : pystr := lit "Mobile".

Section Extractor.

(** [\d] of the regular expressions: the decimal digits of the Unicode
    database the interpreter ships with. *)
Variable isdecimal : N -> bool.

(** The HTML parser. *)
Variable BeautifulSoup : pystr -> node.

(** The class [[\d\s\(\)]]. *)
Definition phone_class (c : N) : bool :=
  isdecimal c || isspace c || (c =? 40)%N || (c =? 41)%N.

(** [label\s*:\s*(\+[\d\s\(\)]+)] at the start of [s]: the group. *)
Definition match_phone_at (label s : pystr) : option pystr :=
  match match_literal label s with
  | None => None
  | Some rest =>
      match lstrip rest with
      | c :: rest =>
          if (c =? 58)%N then
            match lstrip rest with
            | p :: rest =>
                if (p =? 43)%N then
                  match run_of phone_class rest with
                  | [] => None
                  | run => Some (43%N :: run)
                  end
                else None
            | [] => None
            end
          else None
      | [] => None
      end
  end.

(** ** Extractor: [ClubScraper] *)

(** [ClubScraper._extract_role] *)
Definition _extract_role (heading_row : node) : pystr :=
  match select_one (is_tag (lit "h5") []) heading_row with
  | Some role_element => get_text [] role_element
  | None => NA
  end.

(** [ClubScraper._extract_name] *)
Definition _extract_name (data_row : node) : option pystr :=
  match select_one (is_tag (lit "span") [lit "ftName"]) data_row with
  | Some name_tag => Some (get_text [] name_tag)
  | None => None
  end.

(** The selector [a[href*='javascript:openMess']]. *)
Definition is_openMess_link (n : node) : bool :=
  match n with
  | Text _ => false
  | Tag name _ attrs _ =>
      str_eqb name (lit "a")
      && match get_attr (lit "href") attrs with
         | Some href => contains (lit "javascript:openMess") href
         | None => false
         end
  end.

(** [tag.get("href", "")] *)
Definition href_of (n : node) : pystr :=
  match n with
  | Text _ => []
  | Tag _ _ attrs _ => default [] (get_attr (lit "href") attrs)
  end.

(** [ClubScraper._extract_email] *)
Definition _extract_email (data_row : node) : pystr :=
  match select_one is_openMess_link data_row with
  | Some email_tag =>
      let href := href_of email_tag in
      match re_search match_openMess_at href with
      | Some (domain, user) => user ++ lit "@" ++ domain
      | None => NA
      end
  | None => NA
  end.

(** [ClubScraper._extract_phone_numbers] *)
Definition _extract_phone_numbers (data_row : node) : gmap string pystr :=
  let phones : gmap string pystr :=
    <["mobile_phone" := NA]> (<["private_phone" := NA]> ∅) in
  let contact_column_divs := select (is_tag (lit "div") [lit "col-md-6"]) data_row in
  if (1 <? length contact_column_divs)%nat then
    match contact_column_divs !! 1%nat with
    | Some div =>
        let contact_text := get_text (lit " ") div in
        let phones :=
          match re_search (match_phone_at label_private) contact_text with
          | Some group1 => <["private_phone" := strip group1]> phones
          | None => phones
          end in
        let phones :=
          match re_search (match_phone_at label_mobile) contact_text with
          | Some group1 => <["mobile_phone" := strip group1]> phones
          | None => phones
          end in
        phones
    | None => phones
    end
  else phones.

(** [ClubScraper._extract_trainer_info]; [following] are the later siblings
    of [heading_row].  [None] is the [None] the method returns; the dict
    update takes every entry of [phones]. *)
Definition _extract_trainer_info (heading_row : node) (following : list node)
    (club_name : pystr) : option (gmap string pystr) :=
  match find_next_sibling following with
  | None => None
  | Some data_row =>
      let role := _extract_role heading_row in
      match _extract_name data_row with
      | None => None
      | Some name =>
          if negb (truthy name) then None
          else
            let trainer_info : gmap string pystr :=
              <["club" := club_name]> (<["role" := role]> (<["name" := name]>
              (<["mobile_phone" := NA]> (<["private_phone" := NA]>
              (<["email" := NA]> ∅))))) in
            let trainer_info := <["email" := _extract_email data_row]> trainer_info in
            let phones := _extract_phone_numbers data_row in
            let trainer_info := phones ∪ trainer_info in
            Some trainer_info
      end
  end.

(** The loop of [parse_trainer_data] over the heading rows. *)
Fixpoint collect_trainers (heading_rows : list (node * list node))
    (club_name : pystr) (all_trainers_data : list (gmap string pystr))
  : list (gmap string pystr) :=
  match heading_rows with
  | [] => all_trainers_data
  | (heading_row, following) :: later =>
      match _extract_trainer_info heading_row following club_name with
      | Some trainer_data =>
          if decide (trainer_data = ∅)
          then collect_trainers later club_name all_trainers_data
          else collect_trainers later club_name (all_trainers_data ++ [trainer_data])
      | None => collect_trainers later club_name all_trainers_data
      end
  end.

(** [ClubScraper.parse_trainer_data] *)
Definition parse_trainer_data (html_content club_name : pystr)
  : list (gmap string pystr) :=
  if negb (truthy html_content) then []
  else
    let soup := BeautifulSoup html_content in
    collect_trainers (heading_rows false soup []) club_name [].

End Extractor.

(** ** What the patterns describe *)

(** The text of a call the email pattern matches: domain and user free of
    quotes, [ws] the whitespace after the comma. *)
Definition openMess_call (domain user ws : pystr) : pystr :=
  lit "openMess('" ++ domain ++ lit "'," ++ ws ++ lit "'" ++ user ++ lit "')".

Definition openMess_occurs_at (href : pystr) (k : nat) (domain user : pystr)
  : Prop :=
  exists ws rest,
    (k <= length href)%nat
    /\ drop k href = openMess_call domain user ws ++ rest
    /\ forallb not_quote domain = true
    /\ forallb not_quote user = true
    /\ forallb isspace ws = true.

(** The start of [s] is not in the class [p]. *)
Definition stops (p : N -> bool) (s : pystr) : Prop :=
  match s with
  | [] => True
  | c :: _ => p c = false
  end.

(** The text a phone pattern matches: the label, whitespace, a colon,
    whitespace, a plus sign, and the longest run of digits, whitespace and
    parentheses that follows; the run is not empty. *)
Definition phone_entry (label ws1 ws2 run : pystr) : pystr :=
  label ++ ws1 ++ lit ":" ++ ws2 ++ lit "+" ++ run.

Definition phone_occurs_at (isdecimal : N -> bool) (label text : pystr)
    (k : nat) (run : pystr) : Prop :=
  exists ws1 ws2 rest,
    (k <= length text)%nat
    /\ drop k text = phone_entry label ws1 ws2 run ++ rest
    /\ forallb isspace ws1 = true
    /\ forallb isspace ws2 = true
    /\ run <> []
    /\ forallb (phone_class isdecimal) run = true
    /\ stops (phone_class isdecimal) rest.

(** The text the phone columns are read from: the second [div.col-md-6] of
    the data row, when there is one. *)
Definition contact_text_of (data_row : node) : option pystr :=
  match select (is_tag (lit "div") [lit "col-md-6"]) data_row with
  | _ :: div :: _ => Some (get_text (lit " ") div)
  | _ => None
  end.

(** ** Sample documents *)

(** The decimal digits every version of the Unicode database has. *)
Definition ascii_decimal (c : N) : bool := in_range 48 57 c.

Definition div (classes : list string) (children : list node) : node :=
  Tag (lit "div") (map lit classes) [] children.

Definition heading (h5 : list node) : node :=
  div ["row"; "heading"] [Tag (lit "h5") [] [] h5].

Definition link (href : string) : node :=
  Tag (lit "a") [] [(lit "href", lit href)] [Text (lit "e-mail")].

(** A data row: the name and the link in the first column, the contact
    lines in the second. *)
Definition data_row_of (name : string) (links : list node) (contact : list pystr)
  : node :=
  div ["row"]
    [div ["col-md-6"]
       (Tag (lit "span") [lit "ftName"] [] [Text (lit name)] :: links);
     div ["col-md-6"] (map Text contact)].

Definition document (entries : list node) : node :=
  Tag (lit "[document]") [] [] [div ["liste"] entries].

(** The entry of the examples of the specification. *)
Definition sample_data_row : node :=
  data_row_of "Marc Rey" [link "javascript:openMess('example.com','jdoe')"]
    [label_private ++ lit " : +41 27 111 22 33"; lit "Mobile : +41 79 123 45 67"].

(** The same person behind a heading whose [h5] is empty. *)
Definition empty_role_document : node :=
  document [heading []; sample_data_row].

(** A mobile number written without the leading plus sign. *)
Definition no_plus_data_row : node :=
  data_row_of "Marc Rey" [] [lit "Mobile : 079 123 45 67"].

(** A link whose target is the bare call, without the [javascript:]
    scheme. *)
Definition bare_call_data_row : node :=
  data_row_of "Marc Rey" [link "openMess('example.com','jdoe')"] [].
(* ------------------------------------------------------------------ *)
(** * Properties *)

Lemma range_succ_from (a : nat) (n : nat) :
  map Z.of_nat (seq a (S n)) = Z.of_nat a :: map Z.of_nat (seq (S a) n).
Proof. reflexivity. Qed.

(** Every attempt failing retryably, the loop started at attempt [a] with
    [m] attempts left after it follows the schedule and returns [None]. *)
Lemma fetch_loop_all_fail env (retries : Z) (m a : nat) :
  (forall k, retryable (env k) = true) ->
  retries = Z.of_nat a + Z.of_nat m ->
  fetch_loop env retries a (map Z.of_nat (seq a (S m)))
  = (Run :: retry_schedule_from (Z.of_nat a + 1) m, Return None).
Proof.
  intros Hfail. revert a.
  induction m as [|m IH]; intros a Hr.
  - simpl. unfold backoff.
    assert (Hlt : (Z.of_nat a <? retries) = false) by (apply Z.ltb_ge; lia).
    rewrite Hlt. specialize (Hfail a).
    destruct (env a) as [out| | | |]; simpl in *; try discriminate; try reflexivity.
    destruct (truthy (strip out)); [discriminate | reflexivity].
  - rewrite range_succ_from.
    cbn [fetch_loop]. rewrite (IH (S a)) by lia.
    unfold backoff.
    assert (Hlt : (Z.of_nat a <? retries) = true) by (apply Z.ltb_lt; lia).
    rewrite Hlt. cbn [fst snd retry_schedule_from].
    replace ((Z.of_nat a + 1) * 2) with (2 * (Z.of_nat a + 1)) by lia.
    replace (Z.of_nat (S a) + 1) with (Z.of_nat a + 1 + 1) by lia.
    specialize (Hfail a).
    destruct (env a) as [out| | | |]; simpl in *; try discriminate; try reflexivity.
    destruct (truthy (strip out)); [discriminate | reflexivity].
Qed.

Lemma attempts_made_schedule (i : Z) (m : nat) :
  attempts_made (retry_schedule_from i m) = m.
Proof.
  revert i. induction m as [|m IH]; intros i; [reflexivity|].
  simpl. now rewrite IH.
Qed.

Lemma sleeps_schedule (i : Z) (m : nat) :
  sleeps (retry_schedule_from i m)
  = map (fun j => 2 * (i + Z.of_nat j)) (seq 0 m).
Proof.
  revert i. induction m as [|m IH]; intros i; [reflexivity|].
  cbn [retry_schedule_from sleeps seq map].
  rewrite IH. f_equal; [f_equal; lia|].
  rewrite <- seq_shift, map_map.
  apply map_ext. intros j. lia.
Qed.

Lemma last_schedule (i : Z) (m : nat) :
  last (Run :: retry_schedule_from i m) = Some Run.
Proof.
  revert i. induction m as [|m IH]; intros i; [reflexivity|].
  cbn [retry_schedule_from].
  change (Run :: Sleep (2 * i) :: Run :: retry_schedule_from (i + 1) m)
    with ([Run; Sleep (2 * i)] ++ (Run :: retry_schedule_from (i + 1) m)).
  rewrite last_app, IH. reflexivity.
Qed.

(** C1. A fetch configured with [retries] additional attempts whose every
    attempt fails retryably (non-zero exit, timeout or empty body) makes
    exactly [retries + 1] attempts, sleeps [2 * i] seconds before the
    [i]-th further attempt (2, 4, 6 for three retries), does not sleep after
    the last attempt, and returns [None]: no exception leaves it. *)
Theorem fetch_all_fail_backoff (env : nat -> run_outcome) (retries : Z) :
  0 <= retries ->
  (forall k, retryable (env k) = true) ->
  fetch_html_with_curl env retries = (retry_schedule retries, Return None)
  /\ Z.of_nat (attempts_made (fst (fetch_html_with_curl env retries))) = retries + 1
  /\ sleeps (fst (fetch_html_with_curl env retries))
     = map (fun i => 2 * Z.of_nat i) (seq 1 (Z.to_nat retries))
  /\ last (fst (fetch_html_with_curl env retries)) = Some Run.
Proof.
  intros Hpos Hfail.
  assert (Heq : fetch_html_with_curl env retries
                = (retry_schedule retries, Return None)).
  { unfold fetch_html_with_curl, range, retry_schedule.
    replace (Z.to_nat (retries + 1)) with (S (Z.to_nat retries)) by lia.
    rewrite (fetch_loop_all_fail env retries (Z.to_nat retries) 0 Hfail) by lia.
    reflexivity. }
  rewrite Heq. cbn [fst]. unfold retry_schedule.
  split; [reflexivity|]. split; [|split].
  - cbn [attempts_made]. rewrite attempts_made_schedule. lia.
  - cbn [sleeps]. rewrite sleeps_schedule.
    rewrite <- seq_shift, map_map. apply map_ext. intros j. lia.
  - apply last_schedule.
Qed.

Lemma fetch_all_fail_backoff_witness :
  fetch_html_with_curl (fun _ => TimeoutExpired) MAX_RETRY_ATTEMPTS
  = ([Run; Sleep 2; Run; Sleep 4; Run; Sleep 6; Run], Return None).
Proof.
  apply (fetch_all_fail_backoff (fun _ => TimeoutExpired) MAX_RETRY_ATTEMPTS).
  - unfold MAX_RETRY_ATTEMPTS. lia.
  - intros k. reflexivity.
Defined.

(** C9. When invoking curl raises [FileNotFoundError], the fetch returns
    [None] at once, whatever the retry count: no sleep happens and no
    further attempt is made. *)
Theorem fetch_tool_missing_aborts (env : nat -> run_outcome) (retries : Z) :
  env O = FileNotFoundError ->
  snd (fetch_html_with_curl env retries) = Return None
  /\ sleeps (fst (fetch_html_with_curl env retries)) = []
  /\ (attempts_made (fst (fetch_html_with_curl env retries)) <= 1)%nat.
Proof.
  intros Hmiss. unfold fetch_html_with_curl, range.
  destruct (Z.to_nat (retries + 1)) as [|m].
  - simpl. repeat split; lia.
  - rewrite range_succ_from. cbn [fetch_loop]. rewrite Hmiss.
    simpl. repeat split; lia.
Qed.

Lemma fetch_tool_missing_aborts_witness :
  snd (fetch_html_with_curl (fun _ => FileNotFoundError) 3) = Return None
  /\ sleeps (fst (fetch_html_with_curl (fun _ => FileNotFoundError) 3)) = []
  /\ (attempts_made (fst (fetch_html_with_curl (fun _ => FileNotFoundError) 3)) <= 1)%nat.
Proof.
  apply (fetch_tool_missing_aborts (fun _ => FileNotFoundError) 3).
  reflexivity.
Defined.

(** ** The cleaning step *)

Lemma new_from_eq (f : DataFrame -> DataFrame) (r : ref) (h : store) d :
  h !! r = Some d ->
  new_from f r h = Some (length h, h ++ [f d]).
Proof. intros Hr. unfold new_from. now rewrite Hr. Qed.

Lemma update_eq (f : DataFrame -> DataFrame) (r : ref) (h : store) d :
  h !! r = Some d ->
  update f r h = Some (tt, <[r := f d]> h).
Proof. intros Hr. unfold update. now rewrite Hr. Qed.

(** A loop of in-place updates of one object folds the loop body over its
    value and touches nothing else. *)
Lemma for_each_update (g : DataFrame -> pystr -> DataFrame) (cols : list pystr)
    (r : ref) (h : store) d :
  h !! r = Some d ->
  for_each cols (fun col => update (fun x => g x col) r) h
  = Some (tt, <[r := fold_left g cols d]> h).
Proof.
  revert h d. induction cols as [|col cols IH]; intros h d Hr.
  - cbn [for_each fold_left]. unfold mret, St_ret.
    now rewrite (list_insert_id h r d Hr).
  - cbn [for_each fold_left]. unfold mbind, St_bind.
    rewrite (update_eq _ r h d Hr).
    rewrite (IH (<[r := g d col]> h) (g d col)).
    + now rewrite list_insert_insert_eq.
    + apply list_lookup_insert_eq. eapply lookup_lt_Some; eauto.
Qed.

(** The object program computes [clean_data] of the argument's value into a
    newly allocated object and leaves every object of the caller's store as
    it was. *)
Lemma clean_data_obj_eq (h : store) (r : ref) (df : DataFrame) :
  h !! r = Some df ->
  exists h', clean_data_obj r h = Some ((length h + 3)%nat, h')
    /\ h' !! (length h + 3)%nat = Some (clean_data df)
    /\ forall q, (q < length h)%nat -> h' !! q = h !! q.
Proof.
  intros Hr.
  pose proof (lookup_lt_Some _ _ _ Hr) as Hlt.
  set (d2 := replace [] NA (fillna NA df)).
  set (d3 := fold_left phone_column phone_columns
               (fold_left strip_column string_columns d2)).
  set (h3 := ((h ++ [df]) ++ [fillna NA df]) ++ [d2]).
  assert (Hlen3 : length h3 = (length h + 3)%nat).
  { unfold h3. rewrite !length_app. simpl. lia. }
  assert (H3 : h3 !! (length h + 2)%nat = Some d2).
  { unfold h3. apply list_lookup_middle. rewrite !length_app. simpl. lia. }
  exists (<[(length h + 2)%nat := d3]> h3 ++ [dropna_all d3]).
  split; [|split].
  - unfold clean_data_obj, mbind, St_bind.
    rewrite (new_from_eq _ r h df Hr).
    rewrite (new_from_eq _ (length h) (h ++ [df]) df)
      by (now apply list_lookup_middle).
    rewrite (new_from_eq _ (length (h ++ [df])) ((h ++ [df]) ++ [fillna NA df])
               (fillna NA df))
      by (now apply list_lookup_middle).
    fold d2. fold h3.
    assert (Hr3 : length ((h ++ [df]) ++ [fillna NA df]) = (length h + 2)%nat)
      by (rewrite !length_app; simpl; lia).
    rewrite Hr3.
    rewrite (for_each_update strip_column string_columns _ h3 d2 H3).
    rewrite (for_each_update phone_column phone_columns _ _
               (fold_left strip_column string_columns d2))
      by (apply list_lookup_insert_eq; lia).
    rewrite list_insert_insert_eq. fold d3.
    rewrite (new_from_eq _ _ _ d3) by (apply list_lookup_insert_eq; lia).
    unfold mret, St_ret. rewrite length_insert, Hlen3. reflexivity.
  - apply list_lookup_middle. rewrite length_insert. lia.
  - intros q Hq.
    rewrite lookup_app_l by (rewrite length_insert; lia).
    rewrite list_lookup_insert_ne by lia.
    unfold h3. rewrite !lookup_app_l; rewrite ?length_app; simpl; try lia.
    reflexivity.
Qed.

(** C10. [clean_data] does not change its argument: once it has returned,
    the frame object passed in holds the columns and cells it held before
    (as does every other object of the caller), and the result is a
    different, newly created object holding the cleaned table. *)
Theorem clean_data_leaves_argument (h : store) (r : ref) (df : DataFrame) :
  h !! r = Some df ->
  exists r' h',
    clean_data_obj r h = Some (r', h')
    /\ h' !! r = Some df
    /\ (forall q d, h !! q = Some d -> h' !! q = Some d)
    /\ r' <> r
    /\ h !! r' = None
    /\ h' !! r' = Some (clean_data df).
Proof.
  intros Hr.
  destruct (clean_data_obj_eq h r df Hr) as (h' & Hrun & Hres & Hframe).
  pose proof (lookup_lt_Some _ _ _ Hr) as Hlt.
  exists (length h + 3)%nat, h'. repeat split.
  - exact Hrun.
  - rewrite Hframe by lia. exact Hr.
  - intros q d Hq. rewrite Hframe; [exact Hq|].
    eapply lookup_lt_Some; eauto.
  - lia.
  - apply lookup_ge_None_2. lia.
  - exact Hres.
Qed.

Lemma clean_data_leaves_argument_witness :
  exists r' h',
    clean_data_obj 0%nat [blank_role_table] = Some (r', h')
    /\ h' !! 0%nat = Some blank_role_table
    /\ (forall q d, [blank_role_table] !! q = Some d -> h' !! q = Some d)
    /\ r' <> 0%nat
    /\ [blank_role_table] !! r' = None
    /\ h' !! r' = Some (clean_data blank_role_table).
Proof.
  apply (clean_data_leaves_argument [blank_role_table] 0%nat blank_role_table).
  reflexivity.
Defined.

(** C4. On the table whose single row is missing in every column,
    [clean_data] returns that row filled with the sentinel: the row is not
    dropped, because [dropna(how="all")] runs after [fillna].  On the table
    with a whitespace-only role, the role comes out as the empty string, not
    the sentinel, because [replace("", "N/A")] runs before [strip]. *)
Theorem clean_data_keeps_empty_row :
  clean_data all_missing_table
  = mkFrame CSV_FIELDNAMES [[Str NA; Str NA; Str NA; Str NA; Str NA; Str NA]]
  /\ len (clean_data all_missing_table) = 1%nat
  /\ clean_data blank_role_table
     = mkFrame CSV_FIELDNAMES
         [[Str (lit "FC Sion"); Str []; Str (lit "Jean Dupont");
           Str (lit "+41 79 123 45 67"); Str NA; Str (lit "jd@example.com")]].
Proof. repeat split. Qed.

(** C5. Cleaning is not idempotent on the table with a whitespace-only
    role: the first pass leaves the empty string there, the second pass
    turns it into the sentinel. *)
Theorem clean_data_twice_differs :
  clean_data (clean_data blank_role_table) <> clean_data blank_role_table
  /\ clean_data (clean_data blank_role_table)
     = mkFrame CSV_FIELDNAMES
         [[Str (lit "FC Sion"); Str NA; Str (lit "Jean Dupont");
           Str (lit "+41 79 123 45 67"); Str NA; Str (lit "jd@example.com")]].
Proof. split; [vm_compute; discriminate | reflexivity]. Qed.

(** ** Validation and what it excludes *)

Lemma lacks_column_invalid (f : csv_file) :
  lacks_column f -> validate_csv_structure f = false.
Proof.
  intros (df & col & Hread & Hin & Hmiss).
  unfold validate_csv_structure. rewrite Hread.
  assert (Hm : missing_columns df = true).
  { unfold missing_columns. apply negb_true_iff.
    destruct (forallb _ CSV_FIELDNAMES) eqn:Hall; [|reflexivity].
    rewrite forallb_forall in Hall. rewrite (Hall col Hin) in Hmiss.
    discriminate. }
  now rewrite Hm.
Qed.

Lemma header_only_invalid (f : csv_file) :
  header_only f -> validate_csv_structure f = false.
Proof.
  intros (df & Hread & Hrows).
  unfold validate_csv_structure. rewrite Hread.
  destruct (missing_columns df); [reflexivity|].
  unfold empty. rewrite Hrows. now destruct (columns df).
Qed.

Lemma collect_data_skips (pre post : list csv_file) (f : csv_file) acc :
  validate_csv_structure f = false ->
  collect_data (pre ++ f :: post) acc = collect_data (pre ++ post) acc.
Proof.
  intros Hf. revert acc.
  induction pre as [|g pre IH]; intros acc; simpl.
  - now rewrite Hf.
  - destruct (validate_csv_structure g); simpl; [|apply IH].
    destruct (read_csv g); apply IH.
Qed.

Lemma separate_sheets_skips (pre post : list csv_file) (f : csv_file) :
  validate_csv_structure f = false ->
  _combine_to_separate_sheets (pre ++ f :: post)
  = _combine_to_separate_sheets (pre ++ post).
Proof.
  intros Hf. induction pre as [|g pre IH]; simpl.
  - now rewrite Hf.
  - destruct (validate_csv_structure g); simpl; [|apply IH].
    destruct (read_csv g); [f_equal|]; apply IH.
Qed.

Lemma summary_step_invalid (s : summary) (f : csv_file) :
  validate_csv_structure f = false ->
  summary_step s f
  = mkSummary (total_files s) (total_trainers s) (clubs s)
              (files_with_errors s ++ [file_name f]).
Proof. intros Hf. unfold summary_step. now rewrite Hf. Qed.

(** The loop of the summary only ever appends to the list of files with
    errors. *)
Lemma summary_errors_kept (fs : list csv_file) (s : summary) (x : pystr) :
  In x (files_with_errors s) ->
  In x (files_with_errors (fold_left summary_step fs s)).
Proof.
  revert s. induction fs as [|g fs IH]; intros s Hx; [exact Hx|].
  simpl. apply IH. unfold summary_step.
  destruct (validate_csv_structure g); [destruct (read_csv g)|];
    simpl; try exact Hx; apply in_or_app; now left.
Qed.

(** Clubs and total of the summary depend on the start value through its
    clubs and total alone. *)
Lemma summary_counts_ext (fs : list csv_file) (s s' : summary) :
  clubs s = clubs s' -> total_trainers s = total_trainers s' ->
  clubs (fold_left summary_step fs s) = clubs (fold_left summary_step fs s')
  /\ total_trainers (fold_left summary_step fs s)
     = total_trainers (fold_left summary_step fs s').
Proof.
  revert s s'. induction fs as [|g fs IH]; intros s s' Hc Ht; [now split|].
  simpl. apply IH; unfold summary_step;
    destruct (validate_csv_structure g); [destruct (read_csv g)| |destruct (read_csv g)|];
    simpl; congruence.
Qed.

(** C8. A file that lacks a required column, or that has a header and no
    data row, fails validation; no aggregation takes it in: single-sheet
    and separate-sheet combination give what they give on the other files
    alone, conversion of the file itself is refused, and the summary lists
    its name among the files with errors while its clubs and total are
    those of the other files. *)
Theorem invalid_file_excluded (pre post : list csv_file) (f : csv_file) :
  lacks_column f \/ header_only f ->
  validate_csv_structure f = false
  /\ _combine_to_single_sheet (pre ++ f :: post)
     = _combine_to_single_sheet (pre ++ post)
  /\ _combine_to_separate_sheets (pre ++ f :: post)
     = _combine_to_separate_sheets (pre ++ post)
  /\ convert_csv_to_xlsx f = None
  /\ In (file_name f) (files_with_errors (get_data_summary (pre ++ f :: post)))
  /\ clubs (get_data_summary (pre ++ f :: post))
     = clubs (get_data_summary (pre ++ post))
  /\ total_trainers (get_data_summary (pre ++ f :: post))
     = total_trainers (get_data_summary (pre ++ post)).
Proof.
  intros Hbad.
  assert (Hf : validate_csv_structure f = false).
  { destruct Hbad; [now apply lacks_column_invalid | now apply header_only_invalid]. }
  split; [exact Hf|]. split; [|split; [|split; [|split]]].
  - unfold _combine_to_single_sheet. now rewrite collect_data_skips.
  - now apply separate_sheets_skips.
  - unfold convert_csv_to_xlsx. now rewrite Hf.
  - unfold get_data_summary. rewrite fold_left_app. cbn [fold_left].
    apply summary_errors_kept. rewrite (summary_step_invalid _ f Hf).
    cbn [files_with_errors]. apply in_or_app. right. now left.
  - unfold get_data_summary. rewrite !fold_left_app. cbn [fold_left].
    rewrite (summary_step_invalid _ f Hf).
    apply summary_counts_ext; cbn [clubs total_trainers].
    + apply summary_counts_ext; reflexivity.
    + apply summary_counts_ext; reflexivity.
Qed.

Lemma invalid_file_excluded_witness :
  validate_csv_structure no_email_csv = false
  /\ _combine_to_single_sheet ([sion_csv] ++ no_email_csv :: [conthey_csv])
     = _combine_to_single_sheet ([sion_csv] ++ [conthey_csv])
  /\ _combine_to_separate_sheets ([sion_csv] ++ no_email_csv :: [conthey_csv])
     = _combine_to_separate_sheets ([sion_csv] ++ [conthey_csv])
  /\ convert_csv_to_xlsx no_email_csv = None
  /\ In (file_name no_email_csv)
        (files_with_errors
           (get_data_summary ([sion_csv] ++ no_email_csv :: [conthey_csv])))
  /\ clubs (get_data_summary ([sion_csv] ++ no_email_csv :: [conthey_csv]))
     = clubs (get_data_summary ([sion_csv] ++ [conthey_csv]))
  /\ total_trainers (get_data_summary ([sion_csv] ++ no_email_csv :: [conthey_csv]))
     = total_trainers (get_data_summary ([sion_csv] ++ [conthey_csv])).
Proof.
  apply (invalid_file_excluded [sion_csv] [conthey_csv] no_email_csv).
  left. unfold lacks_column.
  eexists. exists (lit "email").
  split; [reflexivity|]. split; [|reflexivity].
  unfold CSV_FIELDNAMES. simpl. tauto.
Defined.

(** ** The order of the sort key *)

Lemma str_compare_antisym (s t : pystr) :
  str_compare s t = CompOpp (str_compare t s).
Proof.
  revert t. induction s as [|a s IH]; intros [|b t]; simpl; try reflexivity.
  rewrite (N.compare_antisym b a).
  destruct (b ?= a)%N; simpl; [apply IH | reflexivity | reflexivity].
Qed.

Lemma str_compare_eq (s t : pystr) : str_compare s t = Eq -> s = t.
Proof.
  revert t. induction s as [|a s IH]; intros [|b t]; simpl; try discriminate.
  - reflexivity.
  - destruct (a ?= b)%N eqn:Hab; try discriminate.
    intros H. apply N.compare_eq in Hab. subst b. f_equal. now apply IH.
Qed.

Lemma str_compare_refl (s : pystr) : str_compare s s = Eq.
Proof.
  induction s as [|a s IH]; simpl; [reflexivity|].
  now rewrite N.compare_refl.
Qed.

Lemma str_compare_lt_trans (s t u : pystr) :
  str_compare s t = Lt -> str_compare t u = Lt -> str_compare s u = Lt.
Proof.
  revert t u. induction s as [|a s IH]; intros [|b t] [|c u]; simpl;
    try discriminate; try reflexivity.
  destruct (a ?= b)%N eqn:Hab; try discriminate;
    destruct (b ?= c)%N eqn:Hbc; try discriminate; intros H1 H2.
  - apply N.compare_eq in Hab, Hbc. subst. rewrite N.compare_refl. eauto.
  - apply N.compare_eq in Hab. subst. now rewrite Hbc.
  - apply N.compare_eq in Hbc. subst. now rewrite Hab.
  - rewrite N.compare_lt_iff in Hab, Hbc.
    assert (Hac : (a ?= c)%N = Lt) by (apply N.compare_lt_iff; lia).
    now rewrite Hac.
Qed.

Lemma str_compare_laws : comparison_laws str_compare.
Proof.
  split; [|split].
  - apply str_compare_antisym.
  - apply str_compare_lt_trans.
  - intros a b c H. apply str_compare_eq in H. now subst.
Qed.

Lemma cell_compare_laws : comparison_laws cell_compare.
Proof.
  destruct str_compare_laws as (Hanti & Htrans & Heq).
  split; [|split].
  - intros [|s|s] [|t|t]; simpl; try reflexivity; apply Hanti.
  - intros [|s|s] [|t|t] [|u|u]; simpl; try discriminate; try reflexivity;
      apply Htrans.
  - intros [|s|s] [|t|t] [|u|u]; simpl; try discriminate; try reflexivity;
      apply Heq.
Qed.

Lemma row_compare_laws (cols by_ : list pystr) :
  comparison_laws (row_compare cols by_).
Proof.
  destruct cell_compare_laws as (Hanti & Htrans & Heq).
  induction by_ as [|col by_ (IHa & IHt & IHe)].
  - split; [|split]; simpl; intros; congruence.
  - split; [|split].
    + intros a b. simpl.
      rewrite (Hanti (cell_of cols a col) (cell_of cols b col)).
      destruct (cell_compare (cell_of cols b col) (cell_of cols a col));
        simpl; [apply IHa | reflexivity | reflexivity].
    + intros a b c. simpl.
      destruct (cell_compare (cell_of cols a col) (cell_of cols b col)) eqn:Hab;
        try discriminate;
        destruct (cell_compare (cell_of cols b col) (cell_of cols c col)) eqn:Hbc;
        try discriminate; intros H1 H2.
      * rewrite <- (Heq _ _ _ Hab), Hbc. eauto.
      * now rewrite <- (Heq _ _ _ Hab), Hbc.
      * assert (Hcb : cell_compare (cell_of cols c col) (cell_of cols b col) = Eq)
          by (rewrite Hanti, Hbc; reflexivity).
        assert (Hac : cell_compare (cell_of cols a col) (cell_of cols c col) = Lt).
        { rewrite Hanti, <- (Heq _ _ _ Hcb), <- Hanti. exact Hab. }
        now rewrite Hac.
      * now rewrite (Htrans _ _ _ Hab Hbc).
    + intros a b c. simpl.
      destruct (cell_compare (cell_of cols a col) (cell_of cols b col)) eqn:Hab;
        try discriminate.
      intros H. rewrite (Heq _ _ _ Hab).
      destruct (cell_compare (cell_of cols a col) (cell_of cols c col));
        [now apply IHe | reflexivity | reflexivity].
Qed.

#[global] Instance row_le_total cols by_ : Total (row_le cols by_).
Proof.
  intros a b. unfold row_le.
  destruct (row_compare_laws cols by_) as (Hanti & _ & _).
  rewrite (Hanti b a).
  destruct (row_compare cols by_ a b); simpl; [left|left|right]; discriminate.
Qed.

#[global] Instance row_le_trans cols by_ : Transitive (row_le cols by_).
Proof.
  intros a b c. unfold row_le.
  destruct (row_compare_laws cols by_) as (Hanti & Htrans & Heq).
  destruct (row_compare cols by_ a b) eqn:Hab; [| |congruence]; intros _;
    destruct (row_compare cols by_ b c) eqn:Hbc; [| |congruence| | |congruence];
    intros _.
  - rewrite <- (Heq _ _ _ Hab), Hbc. discriminate.
  - rewrite <- (Heq _ _ _ Hab), Hbc. discriminate.
  - assert (Hcb : row_compare cols by_ c b = Eq)
      by (rewrite Hanti, Hbc; reflexivity).
    assert (Hac : row_compare cols by_ a c = Lt).
    { rewrite Hanti, <- (Heq _ _ _ Hcb), <- Hanti. exact Hab. }
    rewrite Hac. discriminate.
  - rewrite (Htrans _ _ _ Hab Hbc). discriminate.
Qed.

(** ** What cleaning does to each row *)

Lemma str_eqb_eq (s t : pystr) : str_eqb s t = true <-> s = t.
Proof.
  revert t. induction s as [|a s IH]; intros [|b t]; simpl;
    try (split; [discriminate | congruence]); try (split; reflexivity).
  rewrite andb_true_iff, N.eqb_eq, IH. split.
  - intros [-> ->]. reflexivity.
  - intros H. injection H as -> ->. split; reflexivity.
Qed.

Lemma str_eqb_refl (s : pystr) : str_eqb s s = true.
Proof. now apply str_eqb_eq. Qed.

Lemma str_in_In (x : pystr) (xs : list pystr) : str_in x xs = true <-> In x xs.
Proof.
  unfold str_in. rewrite existsb_exists. split.
  - intros (y & Hy & Heq). apply str_eqb_eq in Heq. now subst.
  - intros Hx. exists x. split; [exact Hx | apply str_eqb_refl].
Qed.

Lemma assign_row_length col f cols row :
  length (assign_row col f cols row) = length row.
Proof.
  revert row. induction cols as [|name cols IH]; intros [|c row]; simpl;
    try reflexivity.
  now rewrite IH.
Qed.

Lemma assign_row_compose col f g cols row :
  assign_row col g cols (assign_row col f cols row)
  = assign_row col (fun c => g (f c)) cols row.
Proof.
  revert row. induction cols as [|name cols IH]; intros [|c row]; simpl;
    try reflexivity.
  rewrite IH. now destruct (str_eqb name col).
Qed.

Lemma assign_row_not_missing col f cols row :
  (forall c, isna (f c) = false) ->
  Forall (fun c => isna c = false) row ->
  Forall (fun c => isna c = false) (assign_row col f cols row).
Proof.
  intros Hf. revert row. induction cols as [|name cols IH]; intros [|c row] Hrow;
    simpl; try exact Hrow.
  inversion Hrow; subst. constructor; [|now apply IH].
  destruct (str_eqb name col); [apply Hf | assumption].
Qed.

(** Assigning to another column leaves the cell under [col] alone. *)
Lemma cell_of_assign_other c col f cols row :
  c <> col ->
  cell_of cols (assign_row c f cols row) col = cell_of cols row col.
Proof.
  intros Hne. revert row.
  induction cols as [|name cols IH]; intros [|x row]; simpl; try reflexivity.
  destruct (str_eqb name col) eqn:Hcol; [|apply IH].
  apply str_eqb_eq in Hcol. subst name.
  destruct (str_eqb col c) eqn:Hc; [|reflexivity].
  apply str_eqb_eq in Hc. congruence.
Qed.

(** Assigning to [col] itself puts the new value under [col]. *)
Lemma cell_of_assign_same col f cols row :
  (forall c, is_str (f c) = true) ->
  In col cols -> length row = length cols ->
  is_str (cell_of cols (assign_row col f cols row) col) = true.
Proof.
  intros Hf. revert row.
  induction cols as [|name cols IH]; intros [|x row] Hin Hlen; simpl in *;
    try contradiction; try discriminate.
  destruct (str_eqb name col) eqn:Hcol; [apply Hf|].
  destruct Hin as [Heq|Hin]; [subst; rewrite str_eqb_refl in Hcol; discriminate|].
  apply IH; [exact Hin | lia].
Qed.

Lemma strip_column_columns df col : columns (strip_column df col) = columns df.
Proof. unfold strip_column. now destruct (str_in col (columns df)). Qed.

Lemma phone_column_columns df col : columns (phone_column df col) = columns df.
Proof. unfold phone_column. now destruct (str_in col (columns df)). Qed.

Lemma clean_data_columns df : columns (clean_data df) = columns df.
Proof.
  unfold clean_data. cbn [dropna_all columns fold_left string_columns phone_columns].
  now rewrite !phone_column_columns, !strip_column_columns.
Qed.

Lemma well_formed_assign col f df :
  well_formed df -> well_formed (assign col f df).
Proof.
  unfold well_formed, assign. cbn [rows columns]. intros H.
  apply Forall_map. eapply Forall_impl; [exact H|].
  intros row Hrow. cbn beta. now rewrite assign_row_length.
Qed.

Lemma well_formed_map_cells f df :
  well_formed df -> well_formed (map_cells f df).
Proof.
  unfold well_formed, map_cells. cbn [rows columns]. intros H.
  apply Forall_map. eapply Forall_impl; [exact H|].
  intros row Hrow. cbn beta. now rewrite length_map.
Qed.

Lemma well_formed_strip_column df col :
  well_formed df -> well_formed (strip_column df col).
Proof.
  intros H. unfold strip_column. destruct (str_in col (columns df)); [|exact H].
  now apply well_formed_assign.
Qed.

Lemma well_formed_phone_column df col :
  well_formed df -> well_formed (phone_column df col).
Proof.
  intros H. unfold phone_column. destruct (str_in col (columns df)); [|exact H].
  now apply well_formed_assign, well_formed_assign.
Qed.

Lemma full_assign col f df :
  (forall c, isna (f c) = false) -> full df -> full (assign col f df).
Proof.
  unfold full, assign. cbn [rows columns]. intros Hf H.
  apply Forall_map. eapply Forall_impl; [exact H|].
  intros row Hrow. cbn beta. now apply assign_row_not_missing.
Qed.

Lemma full_fillna value df : full (fillna value df).
Proof.
  unfold full, fillna, map_cells. cbn [rows].
  apply Forall_map, Forall_forall. intros row _. cbn beta.
  apply Forall_map, Forall_forall. intros c _. now destruct c.
Qed.

Lemma full_replace old new df : full df -> full (replace old new df).
Proof.
  unfold full, replace, map_cells. cbn [rows]. intros H.
  apply Forall_map. eapply Forall_impl; [exact H|].
  intros row Hrow. cbn beta.
  apply Forall_map. eapply Forall_impl; [exact Hrow|].
  intros [|s|s] Hc; cbn beta iota; try exact Hc.
  now destruct (str_eqb s old).
Qed.

Lemma full_strip_column df col : full df -> full (strip_column df col).
Proof.
  intros H. unfold strip_column. destruct (str_in col (columns df)); [|exact H].
  apply full_assign; [|exact H]. now intros [|s|s].
Qed.

Lemma phone_column_assign df col :
  phone_column df col
  = if str_in col (columns df)
    then assign col (fun c => str_method collapse_spaces
                                (str_method strip (astype_str c))) df
    else df.
Proof.
  unfold phone_column. destruct (str_in col (columns df)); [|reflexivity].
  unfold assign. cbn [rows columns]. f_equal.
  rewrite map_map. apply map_ext. intros row. apply assign_row_compose.
Qed.

Lemma full_phone_column df col : full df -> full (phone_column df col).
Proof.
  intros H. rewrite phone_column_assign.
  destruct (str_in col (columns df)); [|exact H].
  apply full_assign; [|exact H]. now intros [|s|s].
Qed.

Lemma text_under_assign_other c col f df :
  c <> col -> text_under col df -> text_under col (assign c f df).
Proof.
  unfold text_under, assign. cbn [rows columns]. intros Hne H.
  apply Forall_map. eapply Forall_impl; [exact H|].
  intros row Hrow. cbn beta. now rewrite cell_of_assign_other.
Qed.

Lemma text_under_strip_column_same df col :
  well_formed df -> In col (columns df) ->
  text_under col (strip_column df col).
Proof.
  intros Hwf Hin. unfold strip_column.
  rewrite (proj2 (str_in_In col (columns df)) Hin).
  unfold text_under, assign. cbn [rows columns].
  apply Forall_map. eapply Forall_impl; [exact Hwf|].
  intros row Hrow. cbn beta.
  apply cell_of_assign_same; [now intros [|s|s] | exact Hin | exact Hrow].
Qed.

Lemma text_under_strip_column_other df c col :
  c <> col -> text_under col df -> text_under col (strip_column df c).
Proof.
  intros Hne H. unfold strip_column. destruct (str_in c (columns df)); [|exact H].
  now apply text_under_assign_other.
Qed.

Lemma text_under_phone_column_other df c col :
  c <> col -> text_under col df -> text_under col (phone_column df c).
Proof.
  intros Hne H. unfold phone_column. destruct (str_in c (columns df)); [|exact H].
  now apply text_under_assign_other, text_under_assign_other.
Qed.

Lemma text_under_dropna col df : text_under col df -> text_under col (dropna_all df).
Proof.
  unfold text_under, dropna_all. cbn [rows columns]. intros H.
  rewrite List.Forall_forall in *. intros row Hrow.
  apply List.filter_In in Hrow. now apply H.
Qed.

(** A frame without missing cells whose rows are not empty loses no row. *)
Lemma dropna_all_full df :
  full df -> Forall (fun row => row <> []) (rows df) ->
  rows (dropna_all df) = rows df.
Proof.
  unfold full, dropna_all. cbn [rows]. intros Hfull Hne.
  induction (rows df) as [|row rs IH]; [reflexivity|].
  inversion Hfull as [|? ? Hrow Hrest]; inversion Hne as [|? ? Hr Hrs]; subst.
  simpl. destruct row as [|c row]; [congruence|].
  inversion Hrow; subst. simpl.
  replace (isna c) with false by congruence. simpl.
  f_equal. now apply IH.
Qed.

(** ** Cleaning keeps the rows and makes the key columns text *)

Ltac distinct_labels :=
  let H := fresh in intros H; vm_compute in H; discriminate H.

Ltac wf_steps :=
  repeat first
    [ assumption
    | apply well_formed_phone_column
    | apply well_formed_strip_column
    | apply well_formed_map_cells ].

Lemma well_formed_clean_data df : well_formed df -> well_formed (clean_data df).
Proof.
  intros Hwf.
  assert (Hpre : well_formed
            (fold_left phone_column phone_columns
               (fold_left strip_column string_columns
                  (replace [] NA (fillna NA df))))).
  { cbn [fold_left string_columns phone_columns]. unfold replace, fillna. wf_steps. }
  unfold clean_data, well_formed, dropna_all in *. cbn [rows columns].
  rewrite List.Forall_forall in *. intros row Hrow.
  apply List.filter_In in Hrow. now apply Hpre.
Qed.

Lemma clean_data_rows df :
  well_formed df -> columns df <> [] ->
  rows (clean_data df)
  = rows (fold_left phone_column phone_columns
            (fold_left strip_column string_columns
               (replace [] NA (fillna NA df)))).
Proof.
  intros Hwf Hcols. unfold clean_data.
  apply dropna_all_full.
  - cbn [fold_left string_columns phone_columns].
    repeat first [apply full_phone_column | apply full_strip_column].
    apply full_replace, full_fillna.
  - assert (Hpre : well_formed
            (fold_left phone_column phone_columns
               (fold_left strip_column string_columns
                  (replace [] NA (fillna NA df))))).
    { cbn [fold_left string_columns phone_columns]. unfold replace, fillna. wf_steps. }
    unfold well_formed in Hpre.
    eapply Forall_impl; [exact Hpre|].
    intros row Hlen Hnil. subst row.
    cbn [fold_left string_columns phone_columns] in Hlen.
    rewrite !phone_column_columns, !strip_column_columns in Hlen.
    cbn in Hlen. destruct (columns df); [congruence | discriminate].
Qed.

(** Cleaning drops no row of a well-formed table that has columns. *)
Lemma clean_data_len df :
  well_formed df -> columns df <> [] -> len (clean_data df) = len df.
Proof.
  intros Hwf Hcols. unfold len. rewrite clean_data_rows by assumption.
  cbn [fold_left string_columns phone_columns].
  unfold phone_column, strip_column.
  repeat match goal with
         | |- context [if ?b then _ else _] => destruct b
         end;
    unfold assign, replace, fillna, map_cells; cbn [rows columns];
    now rewrite !length_map.
Qed.

(** After cleaning, the cells under each column of the sort key hold
    text. *)
Lemma clean_data_text_key df col :
  well_formed df -> In col (columns df) -> In col sort_key ->
  text_under col (clean_data df).
Proof.
  intros Hwf Hin Hkey. unfold clean_data.
  apply text_under_dropna.
  cbn [fold_left string_columns phone_columns].
  unfold sort_key in Hkey. cbn [In] in Hkey.
  destruct Hkey as [<-|[<-|[<-|[]]]].
  - do 2 (apply text_under_phone_column_other; [distinct_labels|]).
    do 3 (apply text_under_strip_column_other; [distinct_labels|]).
    apply text_under_strip_column_same; [unfold replace, fillna; wf_steps | exact Hin].
  - do 2 (apply text_under_phone_column_other; [distinct_labels|]).
    do 2 (apply text_under_strip_column_other; [distinct_labels|]).
    apply text_under_strip_column_same.
    + unfold replace, fillna. wf_steps.
    + rewrite !strip_column_columns. exact Hin.
  - do 2 (apply text_under_phone_column_other; [distinct_labels|]).
    do 1 (apply text_under_strip_column_other; [distinct_labels|]).
    apply text_under_strip_column_same.
    + unfold replace, fillna. wf_steps.
    + rewrite !strip_column_columns. exact Hin.
Qed.

(** ** Concatenation *)

Lemma cell_of_reindexed (g : pystr -> cell) (cols : list pystr) (col : pystr) :
  In col cols -> cell_of cols (map g cols) col = g col.
Proof.
  induction cols as [|name cols IH]; intros Hin; [contradiction|].
  simpl. destruct (str_eqb name col) eqn:Hcol.
  - apply str_eqb_eq in Hcol. now subst.
  - destruct Hin as [->|Hin]; [|now apply IH].
    rewrite str_eqb_refl in Hcol. discriminate.
Qed.

Lemma add_columns_keeps (acc cols : list pystr) (c : pystr) :
  In c acc -> In c (add_columns acc cols).
Proof.
  unfold add_columns. revert acc.
  induction cols as [|x cols IH]; intros acc Hc; [exact Hc|].
  simpl. apply IH. destruct (str_in x acc); [exact Hc|].
  apply in_or_app. now left.
Qed.

Lemma add_columns_adds (acc cols : list pystr) (c : pystr) :
  In c cols -> In c (add_columns acc cols).
Proof.
  revert acc. induction cols as [|x cols IH]; intros acc Hc; [contradiction|].
  destruct Hc as [->|Hc].
  - change (add_columns acc (c :: cols))
      with (add_columns (if str_in c acc then acc else acc ++ [c]) cols).
    apply add_columns_keeps.
    destruct (str_in c acc) eqn:Hin; [now apply str_in_In|].
    apply in_or_app. right. now left.
  - change (add_columns acc (x :: cols))
      with (add_columns (if str_in x acc then acc else acc ++ [x]) cols).
    now apply IH.
Qed.

Lemma union_columns_from_keeps (frames : list DataFrame) (acc : list pystr) c :
  In c acc ->
  In c (fold_left (fun acc df => add_columns acc (columns df)) frames acc).
Proof.
  revert acc. induction frames as [|d frames IH]; intros acc Hc; [exact Hc|].
  simpl. apply IH. now apply add_columns_keeps.
Qed.

(** Every column of every frame is a column of the concatenation. *)
Lemma union_columns_covers (frames : list DataFrame) (d : DataFrame) c :
  In d frames -> In c (columns d) -> In c (union_columns frames).
Proof.
  unfold union_columns. generalize (@nil pystr) as acc.
  induction frames as [|d' frames IH]; intros acc Hd Hc; [contradiction|].
  destruct Hd as [->|Hd]; simpl.
  - apply union_columns_from_keeps. now apply add_columns_adds.
  - now apply IH.
Qed.

Lemma concat_len (frames : list DataFrame) :
  len (concat frames) = sum_list (map len frames).
Proof.
  unfold len, concat. cbn [rows].
  generalize (union_columns frames) as cols. intros cols.
  induction frames as [|d frames IH]; [reflexivity|].
  simpl. rewrite length_app, IH. unfold reindex. now rewrite length_map.
Qed.

(** A frame of the concatenation keeps, under each of its own columns, the
    cells it had. *)
Lemma concat_text_under (frames : list DataFrame) (col : pystr) :
  Forall (fun d => In col (columns d) /\ text_under col d) frames ->
  text_under col (concat frames).
Proof.
  intros Hall. unfold text_under, concat. cbn [rows columns].
  rewrite List.Forall_forall. intros row Hrow.
  apply in_flat_map in Hrow. destruct Hrow as (d & Hd & Hrow).
  unfold reindex in Hrow. apply in_map_iff in Hrow.
  destruct Hrow as (r & <- & Hr).
  rewrite List.Forall_forall in Hall. destruct (Hall d Hd) as (Hcol & Htext).
  rewrite cell_of_reindexed by (eapply union_columns_covers; eauto).
  unfold text_under in Htext. rewrite List.Forall_forall in Htext.
  now apply Htext.
Qed.

(** ** Single-sheet combination *)

Lemma collect_data_valid (csv_files : list csv_file) (acc : list DataFrame) :
  collect_data csv_files acc = acc ++ map clean_data (valid_frames csv_files).
Proof.
  revert acc. induction csv_files as [|f fs IH]; intros acc.
  - simpl. now rewrite app_nil_r.
  - simpl. destruct (validate_csv_structure f) eqn:Hv; simpl.
    + destruct (read_csv f) as [df|]; [|apply IH].
      rewrite IH. simpl. now rewrite <- app_assoc.
    + rewrite IH. destruct (read_csv f); reflexivity.
Qed.

Lemma valid_frames_sound (csv_files : list csv_file) (df : DataFrame) :
  tables_well_formed csv_files -> In df (valid_frames csv_files) ->
  well_formed df /\ missing_columns df = false /\ empty df = false.
Proof.
  intros Hwf Hin. unfold valid_frames in Hin.
  apply in_flat_map in Hin. destruct Hin as (f & Hf & Hdf).
  unfold tables_well_formed in Hwf. rewrite List.Forall_forall in Hwf.
  specialize (Hwf f Hf).
  destruct (read_csv f) as [d|] eqn:Hread; [|contradiction].
  destruct (validate_csv_structure f) eqn:Hv; [|contradiction].
  destruct Hdf as [<-|[]].
  split; [now apply Hwf|].
  unfold validate_csv_structure in Hv. rewrite Hread in Hv.
  destruct (missing_columns d); [discriminate|].
  destruct (empty d); [discriminate|]. now split.
Qed.

Lemma schema_column_present (df : DataFrame) (col : pystr) :
  missing_columns df = false -> In col CSV_FIELDNAMES -> In col (columns df).
Proof.
  unfold missing_columns. rewrite negb_false_iff, forallb_forall.
  intros Hall Hcol. apply str_in_In. now apply Hall.
Qed.

Lemma sort_key_in_schema (col : pystr) : In col sort_key -> In col CSV_FIELDNAMES.
Proof. unfold sort_key, CSV_FIELDNAMES. simpl. tauto. Qed.

(** ** Files that all carry the same columns

    The files the scraper writes all have the columns of the schema; their
    concatenation is then the rows of the first, followed by the rows of the
    second, and so on. *)

Lemma add_columns_fresh (acc cols : list pystr) :
  List.NoDup (acc ++ cols) -> add_columns acc cols = acc ++ cols.
Proof.
  unfold add_columns. revert acc.
  induction cols as [|x cols IH]; intros acc Hnd; simpl.
  - now rewrite app_nil_r.
  - assert (Hx : str_in x acc = false).
    { destruct (str_in x acc) eqn:Hin; [|reflexivity].
      apply str_in_In in Hin. apply List.NoDup_remove_2 in Hnd.
      exfalso. apply Hnd. apply in_or_app. now left. }
    rewrite Hx, IH; rewrite <- app_assoc; [reflexivity | exact Hnd].
Qed.

Lemma add_columns_known (acc cols : list pystr) :
  (forall c, In c cols -> In c acc) -> add_columns acc cols = acc.
Proof.
  unfold add_columns. induction cols as [|x cols IH]; intros Hall; simpl.
  - reflexivity.
  - rewrite (proj2 (str_in_In x acc)) by (apply Hall; now left).
    apply IH. intros c Hc. apply Hall. now right.
Qed.

Lemma union_columns_same (frames : list DataFrame) (cols : list pystr) :
  List.NoDup cols -> frames <> [] ->
  Forall (fun d => columns d = cols) frames ->
  union_columns frames = cols.
Proof.
  intros Hnd Hne Hall. unfold union_columns.
  destruct frames as [|d frames]; [congruence|].
  inversion Hall as [|? ? Hd Hrest]; subst. simpl.
  rewrite add_columns_fresh by exact Hnd. simpl.
  induction frames as [|d' frames IH]; [reflexivity|].
  inversion Hrest as [|? ? Hd' Hrest']; subst. simpl.
  rewrite add_columns_known by (now rewrite Hd').
  apply IH; [discriminate | now constructor | exact Hrest'].
Qed.

Lemma reindex_same_row (cols : list pystr) (row : list cell) :
  List.NoDup cols -> length row = length cols ->
  map (cell_of cols row) cols = row.
Proof.
  intros Hnd. revert row.
  induction cols as [|x cols IH]; intros [|c row] Hlen;
    simpl in Hlen; try discriminate; [reflexivity|].
  apply List.NoDup_cons_iff in Hnd. destruct Hnd as [Hx Hnd].
  cbn [map cell_of]. rewrite str_eqb_refl. f_equal.
  transitivity (map (cell_of cols row) cols); [|apply IH; [exact Hnd | lia]].
  apply map_ext_in. intros y Hy. cbn [cell_of].
  destruct (str_eqb x y) eqn:Hxy; [|reflexivity].
  apply str_eqb_eq in Hxy. now subst.
Qed.

Lemma concat_same_columns (frames : list DataFrame) (cols : list pystr) :
  List.NoDup cols -> frames <> [] ->
  Forall (fun d => columns d = cols) frames ->
  Forall well_formed frames ->
  concat frames = mkFrame cols (flat_map rows frames).
Proof.
  intros Hnd Hne Hcols Hwf. unfold concat.
  rewrite (union_columns_same frames cols Hnd Hne Hcols). f_equal.
  clear Hne. induction frames as [|d frames IH]; [reflexivity|].
  inversion Hcols as [|? ? Hd Hrest]; inversion Hwf as [|? ? Hw Hwrest]; subst.
  simpl. rewrite IH by assumption. f_equal.
  unfold reindex. transitivity (map (fun row => row) (rows d)); [|apply map_id].
  apply map_ext_in. intros row Hrow.
  apply reindex_same_row; [exact Hnd|].
  unfold well_formed in Hw. rewrite List.Forall_forall in Hw. now apply Hw.
Qed.

(** ** The order of the combined sheet *)

Lemma cell_of_under (cols : list pystr) (row : list cell) (col : pystr) :
  cell_of cols row col = default NaN (under cols row col).
Proof.
  revert row. induction cols as [|name cols IH]; intros row.
  - destruct row; reflexivity.
  - unfold under. simpl list_find.
    destruct row as [|c row]; cbn [cell_of].
    + destruct (decide (name = col)); [reflexivity|].
      destruct (list_find (fun name0 => name0 = col) cols) as [[i x]|];
        reflexivity.
    + destruct (decide (name = col)) as [->|Hne].
      * rewrite str_eqb_refl. reflexivity.
      * destruct (str_eqb name col) eqn:E;
          [apply str_eqb_eq in E; contradiction|].
        rewrite IH. unfold under.
        destruct (list_find (fun name0 => name0 = col) cols) as [[i x]|];
          reflexivity.
Qed.

Lemma text_cell_under (cols : list pystr) (row : list cell) (col : pystr) :
  is_str (cell_of cols row col) = true ->
  exists s, under cols row col = Some (Str s) /\ cell_of cols row col = Str s.
Proof.
  rewrite cell_of_under.
  destruct (under cols row col) as [[|s|s]|]; simpl; try discriminate.
  intros _. now exists s.
Qed.

Lemma under_cell_of (cols : list pystr) (row : list cell) (col : pystr) (c : cell) :
  under cols row col = Some c -> cell_of cols row col = c.
Proof. intros H. now rewrite cell_of_under, H. Qed.

(** The rows of the concatenation are the rows of the frames, one frame
    after the other, laid out on its columns. *)
Lemma concat_appended (frames : list DataFrame) :
  rows (concat frames) = appended_rows (union_columns frames) frames.
Proof.
  unfold concat, appended_rows, reindex. cbn [rows].
  apply flat_map_ext. intros d. apply map_ext. intros row.
  apply map_ext. intros col. apply cell_of_under.
Qed.

Lemma add_columns_only (acc cols : list pystr) (c : pystr) :
  In c (add_columns acc cols) -> In c acc \/ In c cols.
Proof.
  unfold add_columns. revert acc.
  induction cols as [|x cols IH]; intros acc Hc; [now left|].
  simpl in Hc. apply IH in Hc. destruct Hc as [Hc|Hc]; [|right; now right].
  destruct (str_in x acc); [now left|].
  apply in_app_or in Hc. destruct Hc as [Hc|[<-|[]]]; [now left|].
  right. now left.
Qed.

Lemma union_columns_only (frames : list DataFrame) (c : pystr) :
  In c (union_columns frames) -> exists d, In d frames /\ In c (columns d).
Proof.
  unfold union_columns.
  assert (H : forall acc,
             In c (fold_left (fun acc df => add_columns acc (columns df)) frames acc) ->
             In c acc \/ exists d, In d frames /\ In c (columns d)).
  { induction frames as [|d frames IH]; intros acc Hc; [now left|].
    simpl in Hc. apply IH in Hc. destruct Hc as [Hc|(d' & Hd' & Hc)].
    - apply add_columns_only in Hc. destruct Hc as [Hc|Hc]; [now left|].
      right. exists d. split; [now left | exact Hc].
    - right. exists d'. split; [now right | exact Hc]. }
  intros Hc. apply H in Hc. destruct Hc as [[]|Hc]. exact Hc.
Qed.

Lemma add_columns_NoDup (acc cols : list pystr) :
  List.NoDup acc -> List.NoDup (add_columns acc cols).
Proof.
  unfold add_columns. revert acc.
  induction cols as [|x cols IH]; intros acc Hnd; [exact Hnd|].
  simpl. apply IH. destruct (str_in x acc) eqn:Hx; [exact Hnd|].
  apply List.NoDup_app; [exact Hnd | repeat constructor; intros [] |].
  intros y Hy [<-|[]]. apply str_in_In in Hy. congruence.
Qed.

Lemma union_columns_NoDup (frames : list DataFrame) :
  List.NoDup (union_columns frames).
Proof.
  unfold union_columns.
  assert (H : forall acc, List.NoDup acc ->
             List.NoDup (fold_left (fun acc df => add_columns acc (columns df))
                           frames acc)).
  { induction frames as [|d frames IH]; intros acc Hnd; [exact Hnd|].
    simpl. apply IH. now apply add_columns_NoDup. }
  apply H. constructor.
Qed.

(** The comparison of [str] values decides the order [str_before]. *)
Lemma str_compare_before (s t : pystr) :
  str_compare s t = Lt -> str_before s t.
Proof.
  revert t. induction s as [|a s IH]; intros [|b t]; simpl; try discriminate.
  - intros _. now exists [], [], (b :: t).
  - destruct (a ?= b)%N eqn:Hab; try discriminate.
    + apply N.compare_eq in Hab. subst b. intros H.
      destruct (IH t H) as (common & s' & t' & -> & -> & Hd).
      now exists (a :: common), s', t'.
    + intros _. exists [], (a :: s), (b :: t).
      split; [reflexivity|]. split; [reflexivity|].
      now apply N.compare_lt_iff.
Qed.

(** Rows whose key cells are text: the comparison of the sort agrees with
    the order of the keys. *)
Lemma row_le_in_key_order (cols : list pystr) (r1 r2 : list cell) :
  is_Some (key_of cols r1) -> is_Some (key_of cols r2) ->
  row_le cols sort_key r1 r2 -> in_key_order cols r1 r2.
Proof.
  intros [[[c1 o1] n1] H1] [[[c2 o2] n2] H2] Hle.
  exists (c1, o1, n1), (c2, o2, n2). split; [exact H1|]. split; [exact H2|].
  unfold key_of in H1, H2.
  destruct (under cols r1 (lit "club")) as [[|x1|?]|] eqn:Hc1; try discriminate.
  destruct (under cols r1 (lit "role")) as [[|y1|?]|] eqn:Ho1; try discriminate.
  destruct (under cols r1 (lit "name")) as [[|z1|?]|] eqn:Hn1; try discriminate.
  destruct (under cols r2 (lit "club")) as [[|x2|?]|] eqn:Hc2; try discriminate.
  destruct (under cols r2 (lit "role")) as [[|y2|?]|] eqn:Ho2; try discriminate.
  destruct (under cols r2 (lit "name")) as [[|z2|?]|] eqn:Hn2; try discriminate.
  injection H1 as <- <- <-. injection H2 as <- <- <-.
  apply under_cell_of in Hc1, Ho1, Hn1, Hc2, Ho2, Hn2.
  unfold row_le, sort_key in Hle. cbn [row_compare] in Hle.
  rewrite Hc1, Hc2, Ho1, Ho2, Hn1, Hn2 in Hle. cbn [cell_compare] in Hle.
  unfold key_le.
  destruct (str_compare x1 x2) eqn:Ec; [| |congruence].
  - apply str_compare_eq in Ec. subst x2. right. split; [reflexivity|].
    destruct (str_compare y1 y2) eqn:Eo; [| |congruence].
    + apply str_compare_eq in Eo. subst y2. right. split; [reflexivity|].
      destruct (str_compare z1 z2) eqn:En; [| |congruence].
      * apply str_compare_eq in En. now right.
      * left. now apply str_compare_before.
    + left. now apply str_compare_before.
  - left. now apply str_compare_before.
Qed.

Lemma same_key_compare_eq (cols : list pystr) (r1 r2 : list cell)
    (k : pystr * pystr * pystr) :
  key_of cols r1 = Some k -> key_of cols r2 = Some k ->
  row_compare cols sort_key r1 r2 = Eq.
Proof.
  unfold key_of. intros H1 H2.
  destruct (under cols r1 (lit "club")) as [[|x1|?]|] eqn:Hc1; try discriminate.
  destruct (under cols r1 (lit "role")) as [[|y1|?]|] eqn:Ho1; try discriminate.
  destruct (under cols r1 (lit "name")) as [[|z1|?]|] eqn:Hn1; try discriminate.
  destruct (under cols r2 (lit "club")) as [[|x2|?]|] eqn:Hc2; try discriminate.
  destruct (under cols r2 (lit "role")) as [[|y2|?]|] eqn:Ho2; try discriminate.
  destruct (under cols r2 (lit "name")) as [[|z2|?]|] eqn:Hn2; try discriminate.
  injection H1 as <-. injection H2 as -> -> ->.
  apply under_cell_of in Hc1, Ho1, Hn1, Hc2, Ho2, Hn2.
  unfold sort_key. cbn [row_compare].
  rewrite Hc1, Hc2, Ho1, Ho2, Hn1, Hn2. cbn [cell_compare].
  now rewrite !str_compare_refl.
Qed.

(** ** The sort *)

Lemma insert_row_perm (cols by_ : list pystr) (row : list cell)
    (l : list (list cell)) :
  insert_row cols by_ row l ≡ₚ row :: l.
Proof.
  induction l as [|r l IH]; [reflexivity|]. cbn [insert_row].
  destruct (row_compare cols by_ row r); try reflexivity.
  rewrite IH. apply perm_swap.
Qed.

Lemma sort_perm (cols by_ : list pystr) (l : list (list cell)) :
  foldr (insert_row cols by_) [] l ≡ₚ l.
Proof.
  induction l as [|r l IH]; [reflexivity|]. cbn [foldr].
  rewrite insert_row_perm. now rewrite IH.
Qed.

Lemma insert_row_sorted (cols by_ : list pystr) (row : list cell)
    (l : list (list cell)) :
  StronglySorted (row_le cols by_) l ->
  StronglySorted (row_le cols by_) (insert_row cols by_ row l).
Proof.
  induction 1 as [|r l Hs IH Hall]; cbn [insert_row].
  - repeat constructor.
  - destruct (row_compare cols by_ row r) eqn:Hc.
    + constructor; [now constructor|].
      constructor; [unfold row_le; congruence|].
      eapply List.Forall_impl; [|exact Hall]. intros x Hx.
      apply (row_le_trans cols by_ row r x); [unfold row_le; congruence | exact Hx].
    + constructor; [now constructor|].
      constructor; [unfold row_le; congruence|].
      eapply List.Forall_impl; [|exact Hall]. intros x Hx.
      apply (row_le_trans cols by_ row r x); [unfold row_le; congruence | exact Hx].
    + constructor; [exact IH|].
      rewrite insert_row_perm. constructor; [|exact Hall].
      unfold row_le. destruct (row_compare_laws cols by_) as (Hanti & _ & _).
      rewrite Hanti, Hc. discriminate.
Qed.

Lemma sort_sorted (cols by_ : list pystr) (l : list (list cell)) :
  StronglySorted (row_le cols by_) (foldr (insert_row cols by_) [] l).
Proof.
  induction l as [|r l IH]; [constructor|]. cbn [foldr].
  now apply insert_row_sorted.
Qed.

(** The sort is stable: the rows with a given key stay in the order they
    had. *)
Lemma insert_row_stable (cols : list pystr) (k : pystr * pystr * pystr)
    (row : list cell) (l : list (list cell)) :
  filter (fun r => key_of cols r = Some k) (insert_row cols sort_key row l)
  = filter (fun r => key_of cols r = Some k) (row :: l).
Proof.
  induction l as [|r l IH]; [reflexivity|]. cbn [insert_row].
  destruct (row_compare cols sort_key row r) eqn:Hc; try reflexivity.
  rewrite (filter_cons _ r), IH, !filter_cons.
  destruct (decide (key_of cols r = Some k)) as [Hr|Hr];
    destruct (decide (key_of cols row = Some k)) as [Hrow|Hrow];
    try reflexivity.
  rewrite (same_key_compare_eq cols row r k Hrow Hr) in Hc. discriminate.
Qed.

Lemma sort_stable (cols : list pystr) (k : pystr * pystr * pystr)
    (l : list (list cell)) :
  filter (fun r => key_of cols r = Some k) (foldr (insert_row cols sort_key) [] l)
  = filter (fun r => key_of cols r = Some k) l.
Proof.
  induction l as [|r l IH]; [reflexivity|]. cbn [foldr].
  rewrite insert_row_stable, !filter_cons, IH. reflexivity.
Qed.

Lemma sorted_by_key (cols : list pystr) (l : list (list cell)) :
  Forall (fun row => is_Some (key_of cols row)) l ->
  StronglySorted (row_le cols sort_key) l ->
  StronglySorted (in_key_order cols) l.
Proof.
  intros Hkeys Hs. induction Hs as [|r l Hs IH Hall]; [constructor|].
  inversion Hkeys as [|? ? Hr Hl]; subst.
  constructor; [now apply IH|].
  rewrite List.Forall_forall in Hall, Hl |- *. intros x Hx.
  apply row_le_in_key_order; [exact Hr | now apply Hl | now apply Hall].
Qed.

Lemma text_key_of (cols : list pystr) (row : list cell) :
  (forall col, In col sort_key -> is_str (cell_of cols row col) = true) ->
  is_Some (key_of cols row).
Proof.
  intros H. unfold key_of.
  destruct (text_cell_under cols row (lit "club")) as (c & -> & _);
    [apply H; unfold sort_key; simpl; tauto|].
  destruct (text_cell_under cols row (lit "role")) as (o & -> & _);
    [apply H; unfold sort_key; simpl; tauto|].
  destruct (text_cell_under cols row (lit "name")) as (n & -> & _);
    [apply H; unfold sort_key; simpl; tauto|].
  now eexists.
Qed.

(** C7. In single-sheet mode the method returns [False] exactly when no
    file is valid.  Otherwise the table written holds the cleaned rows of
    the valid files, one file after the other, rearranged in ascending order
    of the key (club, role, name), rows with the same key staying in the
    order of the files: its columns are the columns of those files, every
    row has a key of three texts, and its number of rows is the sum of the
    valid files' numbers of data rows.  When the valid files all have the
    same columns, its rows are the rows of the cleaned files as they are. *)
Theorem single_sheet_sorted_concat (csv_files : list csv_file) :
  tables_well_formed csv_files ->
  match _combine_to_single_sheet csv_files with
  | None => valid_frames csv_files = []
  | Some out =>
      valid_frames csv_files <> []
      /\ List.NoDup (columns out)
      /\ (forall col,
            In col (columns out)
            <-> exists d, In d (valid_frames csv_files) /\ In col (columns d))
      /\ rows out
         ≡ₚ appended_rows (columns out) (map clean_data (valid_frames csv_files))
      /\ Forall (fun row => is_Some (key_of (columns out) row)) (rows out)
      /\ StronglySorted (in_key_order (columns out)) (rows out)
      /\ (forall k,
            filter (fun row => key_of (columns out) row = Some k) (rows out)
            = filter (fun row => key_of (columns out) row = Some k)
                (appended_rows (columns out)
                   (map clean_data (valid_frames csv_files))))
      /\ len out = sum_list (map len (valid_frames csv_files))
      /\ (forall cols,
            List.NoDup cols ->
            Forall (fun d => columns d = cols) (valid_frames csv_files) ->
            columns out = cols
            /\ rows out
               ≡ₚ flat_map rows (map clean_data (valid_frames csv_files)))
  end.
Proof.
  intros Hwf. unfold _combine_to_single_sheet.
  rewrite collect_data_valid, app_nil_l.
  pose proof (fun df => valid_frames_sound csv_files df Hwf) as Hsound.
  set (vf := valid_frames csv_files) in *. clearbody vf.
  destruct vf as [|d vf]; [reflexivity|].
  set (frames := d :: vf) in *.
  change (map clean_data frames) with (clean_data d :: map clean_data vf) at 1.
  cbv iota beta.
  change (clean_data d :: map clean_data vf) with (map clean_data frames).
  unfold sort_values. cbn [columns rows].
  set (cleaned := map clean_data frames).
  assert (Hconcat : rows (concat cleaned)
                    = appended_rows (union_columns cleaned) cleaned)
    by apply concat_appended.
  assert (Hcols : columns (concat cleaned) = union_columns cleaned) by reflexivity.
  rewrite Hcols.
  assert (Htext : forall col, In col sort_key -> text_under col (concat cleaned)).
  { intros col Hcol. apply (concat_text_under cleaned col).
    apply Forall_map. rewrite List.Forall_forall. intros df Hdf. cbn beta.
    destruct (Hsound df Hdf) as (Hw & Hm & _).
    assert (Hin : In col (columns df))
      by (apply schema_column_present; [exact Hm | now apply sort_key_in_schema]).
    split; [now rewrite clean_data_columns | now apply clean_data_text_key]. }
  assert (Hkeys : Forall (fun row => is_Some (key_of (union_columns cleaned) row))
                    (rows (concat cleaned))).
  { rewrite List.Forall_forall. intros row Hrow. apply text_key_of.
    intros col Hcol. specialize (Htext col Hcol).
    unfold text_under in Htext. rewrite Hcols, List.Forall_forall in Htext.
    now apply Htext. }
  split; [discriminate|].
  split; [apply union_columns_NoDup|].
  split.
  { intros col. split.
    - intros Hc. apply union_columns_only in Hc.
      destruct Hc as (d' & Hd' & Hc). apply in_map_iff in Hd'.
      destruct Hd' as (d0 & <- & Hd0). rewrite clean_data_columns in Hc.
      now exists d0.
    - intros (d0 & Hd0 & Hc).
      apply (union_columns_covers cleaned (clean_data d0)).
      + apply in_map_iff. now exists d0.
      + now rewrite clean_data_columns. }
  split; [rewrite sort_perm; now rewrite Hconcat|].
  split; [now rewrite sort_perm|].
  split; [apply sorted_by_key; [now rewrite sort_perm | apply sort_sorted]|].
  split; [intros k; rewrite sort_stable; now rewrite Hconcat|].
  split.
  - unfold len at 1. cbn [rows].
    rewrite (Permutation_length (sort_perm _ _ _)).
    change (length (rows (concat cleaned))) with (len (concat cleaned)).
    unfold cleaned. rewrite concat_len, map_map. f_equal.
    apply map_ext_in. intros df Hdf.
    destruct (Hsound df Hdf) as (Hw & Hm & _).
    apply clean_data_len; [exact Hw|].
    intros Hnil.
    pose proof (schema_column_present df (lit "club") Hm) as Hclub.
    rewrite Hnil in Hclub. apply Hclub. unfold CSV_FIELDNAMES. now left.
  - intros cols Hnd Hsame.
    assert (Heq : concat cleaned = mkFrame cols (flat_map rows cleaned)).
    { apply concat_same_columns; [exact Hnd | discriminate | |].
      - apply Forall_map. eapply List.Forall_impl; [|exact Hsame].
        intros df Hdf. cbn beta. now rewrite clean_data_columns.
      - apply Forall_map. rewrite List.Forall_forall. intros df Hdf. cbn beta.
        apply well_formed_clean_data. now apply Hsound. }
    split; [now rewrite <- Hcols, Heq|].
    rewrite sort_perm. now rewrite Heq.
Qed.

Lemma single_sheet_sorted_concat_witness :
  match _combine_to_single_sheet sample_files with
  | None => valid_frames sample_files = []
  | Some out =>
      valid_frames sample_files <> []
      /\ List.NoDup (columns out)
      /\ (forall col,
            In col (columns out)
            <-> exists d, In d (valid_frames sample_files) /\ In col (columns d))
      /\ rows out
         ≡ₚ appended_rows (columns out) (map clean_data (valid_frames sample_files))
      /\ Forall (fun row => is_Some (key_of (columns out) row)) (rows out)
      /\ StronglySorted (in_key_order (columns out)) (rows out)
      /\ (forall k,
            filter (fun row => key_of (columns out) row = Some k) (rows out)
            = filter (fun row => key_of (columns out) row = Some k)
                (appended_rows (columns out)
                   (map clean_data (valid_frames sample_files))))
      /\ len out = sum_list (map len (valid_frames sample_files))
      /\ (forall cols,
            List.NoDup cols ->
            Forall (fun d => columns d = cols) (valid_frames sample_files) ->
            columns out = cols
            /\ rows out
               ≡ₚ flat_map rows (map clean_data (valid_frames sample_files)))
  end.
Proof.
  apply (single_sheet_sorted_concat sample_files).
  unfold tables_well_formed, sample_files.
  repeat (apply List.Forall_cons || apply List.Forall_nil);
    intros df [= <-]; unfold well_formed; cbn [rows columns];
    repeat (apply List.Forall_cons || apply List.Forall_nil); reflexivity.
Defined.

(** Files with three and five records give eight rows, in key order: the
    club first, then the role, then the name. *)
Example single_sheet_three_and_five :
  option_map len (_combine_to_single_sheet sample_files) = Some 8%nat
  /\ option_map (fun out => map (fun row => cell_of (columns out) row (lit "name"))
                              (rows out))
       (_combine_to_single_sheet sample_files)
     = Some [Str (lit "Tom Evequoz"); Str (lit "Eric Dessimoz"); Str (lit "Zoe Udry");
             Str (lit "Paul Roh"); Str (lit "Yann Germanier");
             Str (lit "Anne Bovier"); Str (lit "Luc Favre"); Str (lit "Marc Rey")].
Proof. split; vm_compute; reflexivity. Qed.

(** ** Matching *)

Lemma match_literal_app (p s : pystr) : match_literal p (p ++ s) = Some s.
Proof.
  induction p as [|a p IH]; simpl; [now destruct s|].
  now rewrite N.eqb_refl.
Qed.

Lemma match_literal_sound (p s r : pystr) :
  match_literal p s = Some r -> s = p ++ r.
Proof.
  revert s. induction p as [|a p IH]; intros s H.
  - destruct s; simpl in *; congruence.
  - destruct s as [|b s]; simpl in H; [discriminate|].
    destruct (a =? b)%N eqn:Hab; [|discriminate].
    apply N.eqb_eq in Hab. subst b. simpl. f_equal. now apply IH.
Qed.

Lemma run_of_app (p : N -> bool) (l s : pystr) :
  forallb p l = true -> stops p s -> run_of p (l ++ s) = l.
Proof.
  intros Hl Hs. induction l as [|c l IH]; simpl in *.
  - destruct s as [|c s]; simpl in *; [reflexivity | now rewrite Hs].
  - apply andb_true_iff in Hl. destruct Hl as [Hc Hl].
    rewrite Hc. f_equal. now apply IH.
Qed.

Lemma run_of_sound (p : N -> bool) (s : pystr) :
  s = run_of p s ++ drop (length (run_of p s)) s
  /\ forallb p (run_of p s) = true
  /\ stops p (drop (length (run_of p s)) s).
Proof.
  induction s as [|c s (IH1 & IH2 & IH3)]; simpl; [now repeat split|].
  destruct (p c) eqn:Hc; simpl.
  - rewrite Hc. repeat split; [now f_equal | exact IH2 | exact IH3].
  - now repeat split.
Qed.

Lemma lstrip_app (ws s : pystr) :
  forallb isspace ws = true -> stops isspace s -> lstrip (ws ++ s) = s.
Proof.
  intros Hws Hs. induction ws as [|c ws IH]; simpl in *.
  - destruct s as [|c s]; simpl in *; [reflexivity | now rewrite Hs].
  - apply andb_true_iff in Hws. destruct Hws as [Hc Hws].
    rewrite Hc. now apply IH.
Qed.

Lemma lstrip_sound (s : pystr) :
  exists ws, s = ws ++ lstrip s /\ forallb isspace ws = true.
Proof.
  induction s as [|c s (ws & IH1 & IH2)]; simpl.
  - now exists [].
  - destruct (isspace c) eqn:Hc.
    + exists (c :: ws). simpl. rewrite Hc, IH2. split; [now f_equal | reflexivity].
    + now exists [].
Qed.

(** The search returns the match at the first position where there is
    one. *)
Lemma re_search_leftmost {G} (match_at : pystr -> option G) (s : pystr)
    (k : nat) (g : G) :
  (k <= length s)%nat ->
  match_at (drop k s) = Some g ->
  (forall j, (j < k)%nat -> match_at (drop j s) = None) ->
  re_search match_at s = Some g.
Proof.
  revert s. induction k as [|k IH]; intros s Hk Hat Hbefore.
  - rewrite drop_0 in Hat. destruct s; simpl; now rewrite Hat.
  - destruct s as [|c s]; [simpl in Hk; lia|].
    pose proof (Hbefore O ltac:(lia)) as H0. rewrite drop_0 in H0.
    simpl. rewrite H0.
    apply IH; [simpl in Hk; lia | exact Hat |].
    intros j Hj. apply (Hbefore (S j)). lia.
Qed.

Lemma re_search_none {G} (match_at : pystr -> option G) (s : pystr) :
  (forall j, (j <= length s)%nat -> match_at (drop j s) = None) ->
  re_search match_at s = None.
Proof.
  induction s as [|c s IH]; intros Hnone.
  - pose proof (Hnone O ltac:(simpl; lia)) as H0. rewrite drop_0 in H0.
    simpl. now rewrite H0.
  - pose proof (Hnone O ltac:(simpl; lia)) as H0. rewrite drop_0 in H0.
    simpl. rewrite H0.
    apply IH. intros j Hj. apply (Hnone (S j)). simpl. lia.
Qed.

(** ** The email pattern *)

Lemma match_openMess_at_complete (domain user ws rest : pystr) :
  forallb not_quote domain = true ->
  forallb not_quote user = true ->
  forallb isspace ws = true ->
  match_openMess_at (openMess_call domain user ws ++ rest) = Some (domain, user).
Proof.
  intros Hd Hu Hws. unfold match_openMess_at, openMess_call.
  rewrite <- !app_assoc, match_literal_app. cbv zeta.
  rewrite (run_of_app not_quote domain) by (assumption || reflexivity).
  rewrite drop_app_length, match_literal_app.
  rewrite (lstrip_app ws) by (assumption || reflexivity).
  rewrite match_literal_app.
  rewrite (run_of_app not_quote user) by (assumption || reflexivity).
  now rewrite drop_app_length, match_literal_app.
Qed.

Lemma match_openMess_at_sound (s domain user : pystr) :
  match_openMess_at s = Some (domain, user) ->
  exists ws rest,
    s = openMess_call domain user ws ++ rest
    /\ forallb not_quote domain = true
    /\ forallb not_quote user = true
    /\ forallb isspace ws = true.
Proof.
  unfold match_openMess_at. intros H.
  destruct (match_literal (lit "openMess('") s) as [r1|] eqn:H1; [|discriminate].
  cbv zeta in H.
  destruct (run_of_sound not_quote r1) as (Hr1 & Hdom & _).
  destruct (match_literal (lit "',") (drop (length (run_of not_quote r1)) r1))
    as [r2|] eqn:H2; [|discriminate].
  destruct (lstrip_sound r2) as (ws & Hr2 & Hws).
  destruct (match_literal (lit "'") (lstrip r2)) as [r3|] eqn:H3; [|discriminate].
  destruct (run_of_sound not_quote r3) as (Hr3 & Husr & _).
  destruct (match_literal (lit "')") (drop (length (run_of not_quote r3)) r3))
    as [r4|] eqn:H4; [|discriminate].
  injection H as <- <-.
  apply match_literal_sound in H1, H2, H3, H4.
  exists ws, r4. repeat split; try assumption.
  unfold openMess_call. rewrite <- !app_assoc.
  rewrite H1. f_equal. rewrite Hr1 at 1. f_equal.
  rewrite H2. f_equal. rewrite Hr2. f_equal.
  rewrite H3. f_equal. rewrite Hr3 at 1. f_equal. exact H4.
Qed.

(** ** Email extraction *)

Lemma openMess_match_occurs (href : pystr) (j : nat) (d u : pystr) :
  (j <= length href)%nat ->
  match_openMess_at (drop j href) = Some (d, u) ->
  openMess_occurs_at href j d u.
Proof.
  intros Hj H. apply match_openMess_at_sound in H.
  destruct H as (ws & rest & Heq & Hd & Hu & Hws).
  exists ws, rest. repeat split; assumption.
Qed.

Lemma openMess_search_leftmost (href : pystr) (k : nat) (domain user : pystr) :
  openMess_occurs_at href k domain user ->
  (forall j d u, (j < k)%nat -> ~ openMess_occurs_at href j d u) ->
  re_search match_openMess_at href = Some (domain, user).
Proof.
  intros (ws & rest & Hk & Heq & Hd & Hu & Hws) Hfirst.
  apply (re_search_leftmost match_openMess_at href k); [exact Hk | |].
  - rewrite Heq. now apply match_openMess_at_complete.
  - intros j Hj.
    destruct (match_openMess_at (drop j href)) as [[d u]|] eqn:Hm; [|reflexivity].
    exfalso. apply (Hfirst j d u Hj).
    apply openMess_match_occurs; [lia | exact Hm].
Qed.

Lemma openMess_search_none (href : pystr) :
  (forall k d u, ~ openMess_occurs_at href k d u) ->
  re_search match_openMess_at href = None.
Proof.
  intros Hnone. apply re_search_none. intros j Hj.
  destruct (match_openMess_at (drop j href)) as [[d u]|] eqn:Hm; [|reflexivity].
  exfalso. apply (Hnone j d u). now apply openMess_match_occurs.
Qed.

(** C6, as the code has it.  The link consulted is the first one below the
    data row whose [href] contains [javascript:openMess].  When the call
    [openMess('domain', 'user')] occurs in that [href], the email is
    [user@domain] for the leftmost occurrence; when it occurs nowhere in
    that [href], or the data row has no such link, the email is the
    sentinel. *)
Theorem extract_email_first_openMess_link (data_row : node) :
  match select_one is_openMess_link data_row with
  | None => _extract_email data_row = NA
  | Some email_tag =>
      (forall k domain user,
          openMess_occurs_at (href_of email_tag) k domain user ->
          (forall j d u, (j < k)%nat ->
                         ~ openMess_occurs_at (href_of email_tag) j d u) ->
          _extract_email data_row = user ++ lit "@" ++ domain)
      /\ ((forall k d u, ~ openMess_occurs_at (href_of email_tag) k d u) ->
          _extract_email data_row = NA)
  end.
Proof.
  unfold _extract_email.
  destruct (select_one is_openMess_link data_row) as [email_tag|]; [|reflexivity].
  cbv zeta. split.
  - intros k domain user Hocc Hfirst.
    now rewrite (openMess_search_leftmost _ k domain user Hocc Hfirst).
  - intros Hnone. now rewrite (openMess_search_none _ Hnone).
Qed.

Lemma extract_email_first_openMess_link_witness :
  _extract_email sample_data_row = lit "jdoe" ++ lit "@" ++ lit "example.com".
Proof.
  pose proof (extract_email_first_openMess_link sample_data_row) as [Hfound _].
  apply (Hfound 11%nat (lit "example.com") (lit "jdoe")).
  - exists [], []. repeat split; try reflexivity. simpl. lia.
  - intros j d u Hj (ws & rest & _ & Heq & _).
    unfold openMess_call in Heq. rewrite <- !app_assoc in Heq.
    do 11 (destruct j as [|j]; [vm_compute in Heq; discriminate Heq|]).
    lia.
Defined.

(** The link of the example of the specification, whose target is the bare
    call [openMess('example.com','jdoe')]: the selector does not take it,
    and the email is the sentinel. *)
Lemma bare_call_link_gives_sentinel :
  href_of (link "openMess('example.com','jdoe')")
  = openMess_call (lit "example.com") (lit "jdoe") []
  /\ _extract_email bare_call_data_row = NA
  /\ _extract_email bare_call_data_row <> lit "jdoe@example.com".
Proof.
  split; [reflexivity|]. split; [reflexivity|].
  vm_compute. discriminate.
Qed.

(** ** The phone patterns *)

Lemma match_phone_at_complete isdecimal (label ws1 ws2 run rest : pystr) :
  forallb isspace ws1 = true ->
  forallb isspace ws2 = true ->
  run <> [] ->
  forallb (phone_class isdecimal) run = true ->
  stops (phone_class isdecimal) rest ->
  match_phone_at isdecimal label (phone_entry label ws1 ws2 run ++ rest)
  = Some (43%N :: run).
Proof.
  intros H1 H2 Hne Hrun Hstop. unfold match_phone_at, phone_entry.
  rewrite <- !app_assoc, match_literal_app.
  rewrite (lstrip_app ws1) by (assumption || reflexivity).
  cbn [lit app N_of_ascii]. cbn [N.eqb Pos.eqb].
  rewrite (lstrip_app ws2) by (assumption || reflexivity).
  cbn [lit app N_of_ascii]. cbn [N.eqb Pos.eqb].
  rewrite (run_of_app _ run rest Hrun Hstop).
  destruct run; [congruence | reflexivity].
Qed.

Lemma match_phone_at_sound isdecimal (label s g : pystr) :
  match_phone_at isdecimal label s = Some g ->
  exists ws1 ws2 run rest,
    s = phone_entry label ws1 ws2 run ++ rest
    /\ g = 43%N :: run
    /\ forallb isspace ws1 = true
    /\ forallb isspace ws2 = true
    /\ run <> []
    /\ forallb (phone_class isdecimal) run = true
    /\ stops (phone_class isdecimal) rest.
Proof.
  unfold match_phone_at. intros H.
  destruct (match_literal label s) as [r1|] eqn:H1; [|discriminate].
  apply match_literal_sound in H1.
  destruct (lstrip_sound r1) as (ws1 & Hr1 & Hws1).
  destruct (lstrip r1) as [|c r2]; [discriminate|].
  destruct (c =? 58)%N eqn:Hc; [|discriminate]. apply N.eqb_eq in Hc. subst c.
  destruct (lstrip_sound r2) as (ws2 & Hr2 & Hws2).
  destruct (lstrip r2) as [|p r3]; [discriminate|].
  destruct (p =? 43)%N eqn:Hp; [|discriminate]. apply N.eqb_eq in Hp. subst p.
  destruct (run_of_sound (phone_class isdecimal) r3) as (Hr3 & Hrun & Hstop).
  destruct (run_of (phone_class isdecimal) r3) as [|d run] eqn:Hd; [discriminate|].
  injection H as <-.
  exists ws1, ws2, (d :: run), (drop (length (d :: run)) r3).
  repeat split; try assumption; [|discriminate].
  unfold phone_entry. rewrite <- !app_assoc.
  rewrite H1. f_equal. rewrite Hr1. f_equal.
  cbn [lit app N_of_ascii]. f_equal.
  rewrite Hr2. f_equal. f_equal. exact Hr3.
Qed.

Lemma phone_match_occurs isdecimal (label text : pystr) (j : nat) (g : pystr) :
  (j <= length text)%nat ->
  match_phone_at isdecimal label (drop j text) = Some g ->
  exists run, g = 43%N :: run /\ phone_occurs_at isdecimal label text j run.
Proof.
  intros Hj H. apply match_phone_at_sound in H.
  destruct H as (ws1 & ws2 & run & rest & Heq & Hg & H1 & H2 & Hne & Hrun & Hstop).
  exists run. split; [exact Hg|].
  exists ws1, ws2, rest. repeat split; assumption.
Qed.

Lemma phone_search_leftmost isdecimal (label text : pystr) (k : nat) (run : pystr) :
  phone_occurs_at isdecimal label text k run ->
  (forall j r, (j < k)%nat -> ~ phone_occurs_at isdecimal label text j r) ->
  re_search (match_phone_at isdecimal label) text = Some (43%N :: run).
Proof.
  intros (ws1 & ws2 & rest & Hk & Heq & H1 & H2 & Hne & Hrun & Hstop) Hfirst.
  apply (re_search_leftmost _ text k); [exact Hk | |].
  - rewrite Heq. now apply match_phone_at_complete.
  - intros j Hj.
    destruct (match_phone_at isdecimal label (drop j text)) as [g|] eqn:Hm;
      [|reflexivity].
    exfalso. apply phone_match_occurs in Hm; [|lia].
    destruct Hm as (r & _ & Hocc). now apply (Hfirst j r Hj).
Qed.

Lemma phone_search_none isdecimal (label text : pystr) :
  (forall k r, ~ phone_occurs_at isdecimal label text k r) ->
  re_search (match_phone_at isdecimal label) text = None.
Proof.
  intros Hnone. apply re_search_none. intros j Hj.
  destruct (match_phone_at isdecimal label (drop j text)) as [g|] eqn:Hm;
    [|reflexivity].
  exfalso. apply phone_match_occurs in Hm; [|exact Hj].
  destruct Hm as (r & _ & Hocc). now apply (Hnone j r).
Qed.

(** ** Phone extraction *)

Lemma extract_phone_numbers_no_text isdecimal (data_row : node) :
  contact_text_of data_row = None ->
  _extract_phone_numbers isdecimal data_row !! "private_phone" = Some NA
  /\ _extract_phone_numbers isdecimal data_row !! "mobile_phone" = Some NA.
Proof.
  unfold contact_text_of, _extract_phone_numbers.
  destruct (select (is_tag (lit "div") [lit "col-md-6"]) data_row) as [|a [|b l]];
    [| |discriminate]; intros _; split; reflexivity.
Qed.

Lemma extract_phone_numbers_private isdecimal (data_row : node) (text : pystr) :
  contact_text_of data_row = Some text ->
  _extract_phone_numbers isdecimal data_row !! "private_phone"
  = Some match re_search (match_phone_at isdecimal label_private) text with
         | Some group1 => strip group1
         | None => NA
         end.
Proof.
  unfold contact_text_of, _extract_phone_numbers.
  destruct (select (is_tag (lit "div") [lit "col-md-6"]) data_row) as [|a [|b l]];
    [discriminate | discriminate |].
  intros [= <-]. cbn [length Nat.ltb Nat.leb lookup list_lookup]. cbv zeta.
  destruct (re_search (match_phone_at isdecimal label_mobile) _);
    destruct (re_search (match_phone_at isdecimal label_private) _);
    repeat (rewrite lookup_insert_ne by done); now rewrite ?lookup_insert_eq.
Qed.

Lemma extract_phone_numbers_mobile isdecimal (data_row : node) (text : pystr) :
  contact_text_of data_row = Some text ->
  _extract_phone_numbers isdecimal data_row !! "mobile_phone"
  = Some match re_search (match_phone_at isdecimal label_mobile) text with
         | Some group1 => strip group1
         | None => NA
         end.
Proof.
  unfold contact_text_of, _extract_phone_numbers.
  destruct (select (is_tag (lit "div") [lit "col-md-6"]) data_row) as [|a [|b l]];
    [discriminate | discriminate |].
  intros [= <-]. cbn [length Nat.ltb Nat.leb lookup list_lookup]. cbv zeta.
  destruct (re_search (match_phone_at isdecimal label_mobile) _);
    destruct (re_search (match_phone_at isdecimal label_private) _);
    repeat (rewrite lookup_insert_ne by done); now rewrite ?lookup_insert_eq.
Qed.

(** C3, as the code has it.  The contact text is the text of the second
    [div.col-md-6] of the data row.  For each label on its own: when the
    label, followed by optional whitespace, a colon, optional whitespace, a
    plus sign and a non-empty run of digits, whitespace and parentheses,
    occurs in the text, the field holds the plus sign and the longest such
    run of the leftmost occurrence, trimmed; when it occurs nowhere the
    field holds the sentinel.  Without a contact text both fields hold the
    sentinel.  The plus sign is required. *)
Theorem extract_phone_numbers_plus_required (isdecimal : N -> bool)
    (data_row : node) :
  match contact_text_of data_row with
  | None =>
      _extract_phone_numbers isdecimal data_row !! "private_phone" = Some NA
      /\ _extract_phone_numbers isdecimal data_row !! "mobile_phone" = Some NA
  | Some text =>
      forall (label : pystr) (key : string),
        (label = label_private /\ key = "private_phone")
        \/ (label = label_mobile /\ key = "mobile_phone") ->
        (forall k run,
            phone_occurs_at isdecimal label text k run ->
            (forall j r, (j < k)%nat -> ~ phone_occurs_at isdecimal label text j r) ->
            _extract_phone_numbers isdecimal data_row !! key
            = Some (strip (43%N :: run)))
        /\ ((forall k r, ~ phone_occurs_at isdecimal label text k r) ->
            _extract_phone_numbers isdecimal data_row !! key = Some NA)
  end.
Proof.
  destruct (contact_text_of data_row) as [text|] eqn:Htext.
  - intros label key [[-> ->]|[-> ->]]; split.
    + intros k run Hocc Hfirst.
      rewrite (extract_phone_numbers_private _ _ _ Htext).
      now rewrite (phone_search_leftmost _ _ _ k run Hocc Hfirst).
    + intros Hnone.
      rewrite (extract_phone_numbers_private _ _ _ Htext).
      now rewrite (phone_search_none _ _ _ Hnone).
    + intros k run Hocc Hfirst.
      rewrite (extract_phone_numbers_mobile _ _ _ Htext).
      now rewrite (phone_search_leftmost _ _ _ k run Hocc Hfirst).
    + intros Hnone.
      rewrite (extract_phone_numbers_mobile _ _ _ Htext).
      now rewrite (phone_search_none _ _ _ Hnone).
  - now apply extract_phone_numbers_no_text.
Qed.

Lemma extract_phone_numbers_plus_required_witness :
  _extract_phone_numbers ascii_decimal sample_data_row !! "mobile_phone"
  = Some (strip (43%N :: lit "41 79 123 45 67")).
Proof.
  pose proof (extract_phone_numbers_plus_required ascii_decimal sample_data_row)
    as H.
  change (contact_text_of sample_data_row)
    with (Some (label_private ++ lit " : +41 27 111 22 33 Mobile : +41 79 123 45 67"))
    in H.
  destruct (H label_mobile "mobile_phone") as [Hfound _]; [right; now split|].
  apply (Hfound 29%nat).
  - exists (lit " "), (lit " "), [].
    repeat split; try reflexivity; [simpl; lia | discriminate].
  - intros j r Hj (ws1 & ws2 & rest & _ & Heq & _).
    unfold phone_entry, label_mobile in Heq. rewrite <- !app_assoc in Heq.
    do 29 (destruct j as [|j]; [vm_compute in Heq; discriminate Heq|]).
    lia.
Defined.

Lemma plus_in_phone_entry (label ws1 ws2 run rest : pystr) :
  In 43%N (phone_entry label ws1 ws2 run ++ rest).
Proof.
  unfold phone_entry. rewrite <- !app_assoc.
  do 4 (apply in_or_app; right).
  apply in_or_app. left. now left.
Qed.

(** A mobile number written as the label, a colon and digits and spaces,
    without a plus sign: the field is the sentinel, not the number, whatever
    the table of decimal digits. *)
Lemma number_without_plus_not_captured :
  contact_text_of no_plus_data_row = Some (lit "Mobile : " ++ lit "079 123 45 67")
  /\ forallb (phone_class ascii_decimal) (lit "079 123 45 67") = true
  /\ (forall isdecimal,
        _extract_phone_numbers isdecimal no_plus_data_row !! "mobile_phone"
        = Some NA)
  /\ NA <> lit "079 123 45 67".
Proof.
  split; [reflexivity|]. split; [reflexivity|]. split; [|vm_compute; discriminate].
  intros isdecimal.
  rewrite (extract_phone_numbers_mobile isdecimal no_plus_data_row
             (lit "Mobile : 079 123 45 67") eq_refl).
  rewrite phone_search_none; [reflexivity|].
  intros k r (ws1 & ws2 & rest & _ & Heq & _).
  pose proof (plus_in_phone_entry label_mobile ws1 ws2 r rest) as Hplus.
  rewrite <- Heq in Hplus.
  assert (Hin : In 43%N (lit "Mobile : 079 123 45 67")).
  { rewrite <- (take_drop k (lit "Mobile : 079 123 45 67")).
    apply in_or_app. now right. }
  vm_compute in Hin. intuition discriminate.
Qed.

(** ** The records the extractor returns *)

Lemma lstrip_keeps_last (l : pystr) (c : N) :
  isspace c = false -> lstrip (l ++ [c]) <> [].
Proof.
  intros Hc. induction l as [|a l IH]; simpl.
  - now rewrite Hc.
  - destruct (isspace a); [exact IH | discriminate].
Qed.

(** A string that starts with a character other than whitespace is not
    emptied by [strip]. *)
Lemma strip_nonempty (c : N) (s : pystr) :
  isspace c = false -> strip (c :: s) <> [].
Proof.
  intros Hc. unfold strip, rstrip. cbn [lstrip]. rewrite Hc.
  cbn [rev]. intros H.
  apply (f_equal (@rev N)) in H. rewrite rev_involutive in H. cbn [rev] in H.
  now apply (lstrip_keeps_last (rev s) c Hc).
Qed.

Lemma re_search_sound {G} (match_at : pystr -> option G) (s : pystr) (g : G) :
  re_search match_at s = Some g ->
  exists j, (j <= length s)%nat /\ match_at (drop j s) = Some g.
Proof.
  induction s as [|c s IH]; simpl.
  - destruct (match_at []) eqn:Hm; [|discriminate].
    intros [= <-]. exists O. split; [lia | exact Hm].
  - destruct (match_at (c :: s)) eqn:Hm.
    + intros [= <-]. exists O. split; [lia | exact Hm].
    + intros H. destruct (IH H) as (j & Hj & Hat).
      exists (S j). split; [lia | exact Hat].
Qed.

(** The value stored for a phone is never the empty string. *)
Lemma phone_value_nonempty isdecimal (label text : pystr) :
  match re_search (match_phone_at isdecimal label) text with
  | Some group1 => strip group1
  | None => NA
  end <> [].
Proof.
  destruct (re_search (match_phone_at isdecimal label) text) as [g|] eqn:Hs;
    [|discriminate].
  apply re_search_sound in Hs. destruct Hs as (j & _ & Hm).
  apply match_phone_at_sound in Hm.
  destruct Hm as (ws1 & ws2 & run & rest & _ & -> & _).
  now apply strip_nonempty.
Qed.

Lemma extract_email_nonempty (data_row : node) : _extract_email data_row <> [].
Proof.
  unfold _extract_email.
  destruct (select_one is_openMess_link data_row) as [tag|]; [|discriminate].
  cbv zeta.
  destruct (re_search match_openMess_at (href_of tag)) as [[d u]|]; [|discriminate].
  intros H. apply app_eq_nil in H. destruct H as [_ H]. discriminate H.
Qed.

(** The phones dict has exactly the two phone keys, with values that are
    not empty. *)
Lemma extract_phone_numbers_entries isdecimal (data_row : node) :
  exists mobile private_,
    _extract_phone_numbers isdecimal data_row
    = <["mobile_phone" := mobile]> (<["private_phone" := private_]> ∅)
    /\ mobile <> [] /\ private_ <> [].
Proof.
  pose proof (phone_value_nonempty isdecimal label_mobile) as Hm.
  pose proof (phone_value_nonempty isdecimal label_private) as Hp.
  unfold _extract_phone_numbers.
  destruct (select (is_tag (lit "div") [lit "col-md-6"]) data_row) as [|a [|b l]];
    cbn [length Nat.ltb Nat.leb lookup list_lookup]; cbv zeta.
  - exists NA, NA. now repeat split.
  - exists NA, NA. now repeat split.
  - specialize (Hm (get_text (lit " ") b)). specialize (Hp (get_text (lit " ") b)).
    destruct (re_search (match_phone_at isdecimal label_mobile) _) as [gm|];
      destruct (re_search (match_phone_at isdecimal label_private) _) as [gp|].
    + exists (strip gm), (strip gp). split; [|now split].
      apply map_eq. intros k. rewrite !lookup_insert.
      repeat case_decide; congruence.
    + exists (strip gm), NA. split; [|now split].
      apply map_eq. intros k. rewrite !lookup_insert.
      repeat case_decide; congruence.
    + exists NA, (strip gp). split; [|now split].
      apply map_eq. intros k. rewrite !lookup_insert.
      repeat case_decide; congruence.
    + exists NA, NA. now repeat split.
Qed.

Ltac dict_lookup :=
  rewrite lookup_union, !lookup_insert, ?lookup_empty;
  repeat case_decide; try congruence; try reflexivity.

(** What a record holds: every key of the schema is present; the name,
    the phones and the email are not empty; the role is whatever
    [_extract_role] returns. *)
Lemma extract_trainer_info_fields isdecimal (heading_row : node)
    (following : list node) (club_name : pystr) (record : gmap string pystr) :
  _extract_trainer_info isdecimal heading_row following club_name = Some record ->
  record !! "club" = Some club_name
  /\ record !! "role" = Some (_extract_role heading_row)
  /\ (exists name, record !! "name" = Some name /\ name <> [])
  /\ (exists mobile, record !! "mobile_phone" = Some mobile /\ mobile <> [])
  /\ (exists private_, record !! "private_phone" = Some private_ /\ private_ <> [])
  /\ (exists email, record !! "email" = Some email /\ email <> []).
Proof.
  unfold _extract_trainer_info.
  destruct (find_next_sibling following) as [data_row|]; [|discriminate].
  destruct (_extract_name data_row) as [name|]; [|discriminate].
  destruct (truthy name) eqn:Hname; [|discriminate].
  cbn [negb]. cbv zeta. intros [= <-].
  destruct (extract_phone_numbers_entries isdecimal data_row)
    as (mobile & private_ & -> & Hm & Hp).
  split; [dict_lookup|]. split; [dict_lookup|].
  split; [exists name; split; [dict_lookup | now destruct name]|].
  split; [exists mobile; split; [dict_lookup | exact Hm]|].
  split; [exists private_; split; [dict_lookup | exact Hp]|].
  exists (_extract_email data_row). split; [dict_lookup|].
  apply extract_email_nonempty.
Qed.

Lemma collect_trainers_from isdecimal (rows_ : list (node * list node))
    (club_name : pystr) (acc : list (gmap string pystr))
    (record : gmap string pystr) :
  In record (collect_trainers isdecimal rows_ club_name acc) ->
  In record acc
  \/ exists heading_row following,
       In (heading_row, following) rows_
       /\ _extract_trainer_info isdecimal heading_row following club_name
          = Some record.
Proof.
  revert acc. induction rows_ as [|[h f] rows_ IH]; intros acc Hin.
  - now left.
  - cbn [collect_trainers] in Hin.
    destruct (_extract_trainer_info isdecimal h f club_name) as [d|] eqn:Hd.
    + destruct (decide (d = ∅)).
      * destruct (IH _ Hin) as [Hacc|(h' & f' & Hin' & Heq)]; [now left|].
        right. exists h', f'. split; [now right | exact Heq].
      * destruct (IH _ Hin) as [Hacc|(h' & f' & Hin' & Heq)].
        -- apply in_app_or in Hacc. destruct Hacc as [Hacc|[<-|[]]]; [now left|].
           right. exists h, f. split; [now left | exact Hd].
        -- right. exists h', f'. split; [now right | exact Heq].
    + destruct (IH _ Hin) as [Hacc|(h' & f' & Hin' & Heq)]; [now left|].
      right. exists h', f'. split; [now right | exact Heq].
Qed.

(** Every record of [parse_trainer_data] has all six keys, a name that is
    not empty, and phones and an email that are not empty.  The role is the
    text of the heading's [h5], which may be empty. *)
Lemma parsed_records_populated isdecimal BeautifulSoup
    (html_content club_name : pystr) (record : gmap string pystr) :
  In record (parse_trainer_data isdecimal BeautifulSoup html_content club_name) ->
  record !! "club" = Some club_name
  /\ is_Some (record !! "role")
  /\ (exists name, record !! "name" = Some name /\ name <> [])
  /\ (exists mobile, record !! "mobile_phone" = Some mobile /\ mobile <> [])
  /\ (exists private_, record !! "private_phone" = Some private_ /\ private_ <> [])
  /\ (exists email, record !! "email" = Some email /\ email <> []).
Proof.
  unfold parse_trainer_data.
  destruct (truthy html_content); cbn [negb]; [|contradiction].
  cbv zeta. intros Hin.
  apply collect_trainers_from in Hin.
  destruct Hin as [[]|(h & f & _ & Heq)].
  apply extract_trainer_info_fields in Heq.
  destruct Heq as (Hc & Hr & Hn & Hm & Hp & He).
  repeat split; try assumption. now exists (_extract_role h).
Qed.

(** C2. A heading whose [h5] holds no text gives a record whose role is the
    empty string: [_extract_role] returns the sentinel when the element is
    missing, and the element's text as it is otherwise. *)
Theorem empty_heading_gives_empty_role :
  _extract_role (heading []) = []
  /\ map (fun record => record !! "role")
       (parse_trainer_data ascii_decimal (fun _ => empty_role_document)
          (lit "<html>") (lit "FC Sion"))
     = [Some []]
  /\ map (fun record => record !! "name")
       (parse_trainer_data ascii_decimal (fun _ => empty_role_document)
          (lit "<html>") (lit "FC Sion"))
     = [Some (lit "Marc Rey")].
Proof. repeat split. Qed.
